(** * Annotation processing (common-ml, dl/annotation_processing.py and
    dl/annotate/analyse.py): a shallow embedding in Rocq. *)

From Stdlib Require Import ZArith Lia Bool List String Ascii.
From Stdlib Require Import Floats Sorted QArith Qpower Lqa.
From stdpp Require Import base gmap strings list.

Import ListNotations.
Open Scope Z_scope.

(** ** Python exceptions raised by the modelled code *)

Inductive pyerr :=
| ValueError
| KeyError
| TypeError
| OverflowError
| IndexError
| JSONDecodeError
| FileNotFoundError
| ZeroDivisionError
| UnicodeDecodeError.

(** A Python computation that returns a value or raises. *)
Inductive result (A : Type) :=
| Ok (a : A)
| Raise (e : pyerr).
Arguments Ok {A} a.
Arguments Raise {A} e.

Definition bind {A B} (r : result A) (k : A -> result B) : result B :=
  match r with
  | Ok a => k a
  | Raise e => Raise e
  end.

Notation "x <- r ;; k" := (bind r (fun x => k))
  (at level 100, r at next level, right associativity).

(** ** Floats: [int(f)] of Python on a binary64 value *)

(** [int(f)] for a Python float: truncation toward zero of the exact
    binary64 value; [int(nan)] raises ValueError, [int(inf)] raises
    OverflowError. The value of a finite float is [(-1)^s * m * 2^e]. *)
Definition py_int (f : float) : result Z :=
  match Prim2SF f with
  | S754_zero _ => Ok 0
  | S754_infinity _ => Raise OverflowError
  | S754_nan => Raise ValueError
  | S754_finite s m e =>
      let a := if 0 <=? e then Z.pos m * 2 ^ e else Z.pos m / 2 ^ (- e) in
      Ok (if s then - a else a)
  end.

(** [yolo2bbox] (annotation_processing.py, lines 43-58). *)
Definition yolo2bbox (x y w h : float) : result (Z * Z * Z * Z) :=
  xmin <- py_int (x - w / 2)%float ;;
  ymin <- py_int (y - h / 2)%float ;;
  xmax <- py_int (x + w / 2)%float ;;
  ymax <- py_int (y + h / 2)%float ;;
  Ok (xmin, ymin, xmax, ymax).


(** ** Python ints to floats: correctly rounded binary64 *)

(** A binary64 value as [SpecFloat] describes it: a signed zero, a finite
    [(-1)^s * m * 2^e], an infinity or a NaN. *)
Abbreviation float64 := spec_float.

(** The exponent of the last place of the binary64 numbers in
    [[2^E, 2^(E+1))]: 53 significant bits, subnormals below [2^-1022]. *)
Definition fexp64 (E : Z) : Z := Z.max (E - 52) (-1074).

(** [a / (d * 2^e)] as a fraction [num / den]. *)
Definition scaled (a d e : Z) : Z * Z :=
  if 0 <=? e then (a, d * 2 ^ e) else (a * 2 ^ (- e), d).

(** [floor(log2(a / d))] for [a, d > 0]. *)
Definition flog2 (a d : Z) : Z :=
  let E := Z.log2 a - Z.log2 d in
  let '(num, den) := scaled a d E in
  if num <? den then E - 1 else E.

(** [num / den] rounded to an integer, ties to even. *)
Definition rne (num den : Z) : Z :=
  let q := num / den in
  let r := num mod den in
  if 2 * r <? den then q
  else if den <? 2 * r then q + 1
  else if Z.even q then q else q + 1.

(** The positive rational [a / d] rounded to nearest binary64, ties to
    even: [(m, e)] is the value [m * 2^e], [m < 2^53], [m = 0] when it
    rounds to zero. *)
Definition round_pos (a d : Z) : Z * Z :=
  let e := fexp64 (flog2 a d) in
  let '(num, den) := scaled a d e in
  let q := rne num den in
  if q =? 2 ^ 53 then (2 ^ 52, e + 1) else (q, e).

Definition finite_of (s : bool) (q e : Z) : float64 :=
  match q with
  | Zpos m => S754_finite s m e
  | _ => S754_zero s
  end.

(** [n / d] for Python ints, [d <> 0] (int true division): the correctly
    rounded quotient, its zero signed by the signs of [n] and [d];
    OverflowError when it rounds beyond the largest float. [float(n)] is
    [round_ratio n 1]. *)
Definition round_ratio (n d : Z) : result float64 :=
  let s := xorb (n <? 0) (d <? 0) in
  if n =? 0 then Ok (S754_zero s)
  else
    let '(q, e) := round_pos (Z.abs n) (Z.abs d) in
    if 971 <? e then Raise OverflowError else Ok (finite_of s q e).

(** [n / d] for ints. *)
Definition true_div (n d : Z) : result float64 :=
  if d =? 0 then Raise ZeroDivisionError else round_ratio n d.

(** Float multiplication (IEEE 754, round to nearest even); a product
    beyond the largest float is an infinity, not an exception. *)
Definition fmul (x y : float64) : float64 :=
  match x, y with
  | S754_nan, _ | _, S754_nan => S754_nan
  | S754_infinity _, S754_zero _ | S754_zero _, S754_infinity _ => S754_nan
  | S754_infinity sx, S754_infinity sy
  | S754_infinity sx, S754_finite sy _ _
  | S754_finite sx _ _, S754_infinity sy => S754_infinity (xorb sx sy)
  | S754_zero sx, S754_zero sy
  | S754_zero sx, S754_finite sy _ _
  | S754_finite sx _ _, S754_zero sy => S754_zero (xorb sx sy)
  | S754_finite sx mx ex, S754_finite sy my ey =>
      let s := xorb sx sy in
      let '(q, e) := round_pos (Zpos (mx * my) * 2 ^ Z.max 0 (ex + ey))
                               (2 ^ Z.max 0 (- (ex + ey))) in
      if 971 <? e then S754_infinity s else finite_of s q e
  end.

(** [bbox2yolo] (annotation_processing.py, lines 17-40) on Python ints:
    [1 / width] and [(xmin + xmax) / 2] are int true divisions,
    [(xmax - xmin) * dw] converts the int to a float first ([float(n)],
    which raises OverflowError beyond the float range), the products are
    float products. *)
Definition bbox2yolo (width height xmin ymin xmax ymax : Z)
    : result (float64 * float64 * float64 * float64) :=
  dw <- true_div 1 width ;;
  dh <- true_div 1 height ;;
  cx <- true_div (xmin + xmax) 2 ;;
  let x := fmul cx dw in
  cy <- true_div (ymin + ymax) 2 ;;
  let y := fmul cy dh in
  fw <- round_ratio (xmax - xmin) 1 ;;
  let w := fmul fw dw in
  fh <- round_ratio (ymax - ymin) 1 ;;
  let h := fmul fh dh in
  Ok (x, y, w, h).

(** The exact value of a finite float, as a rational. *)
Definition qval (f : float64) : Q :=
  match f with
  | S754_finite s m e => ((if s then -1 else 1) * inject_Z (Zpos m) * 2 ^ e)%Q
  | _ => 0%Q
  end.

Definition is_finite64 (f : float64) : bool :=
  match f with
  | S754_zero _ | S754_finite _ _ _ => true
  | _ => false
  end.

(** A float that is finite and lies in [[0, 1]]. *)
Definition in_unit (f : float64) : Prop :=
  is_finite64 f = true /\ (0 <= qval f <= 1)%Q.

(** Truncation toward zero, stated on the exact value [num / den] of a
    finite float, independently of how [py_int] computes it. *)
Definition is_trunc (f : float) (z : Z) : Prop :=
  match Prim2SF f with
  | S754_zero _ => z = 0
  | S754_finite s m e =>
      let num := (if s then -1 else 1) * Z.pos m * 2 ^ Z.max 0 e in
      let den := 2 ^ Z.max 0 (- e) in
      (0 <= num -> z * den <= num < (z + 1) * den) /\
      (num <= 0 -> (z - 1) * den < num <= z * den)
  | _ => False
  end.

Definition is_finite_float (f : float) : bool :=
  match Prim2SF f with
  | S754_zero _ | S754_finite _ _ _ => true
  | _ => false
  end.

(** ** Class remapping: [TXTAnnotations.update_classes] *)

(** [x in seq] for a tuple or list of ints. *)
Definition mem_Z (c : Z) (l : list Z) : bool := existsb (Z.eqb c) l.

(** A Python dict [Dict[int, int]] kept in insertion order; [keep[c]]. *)
Fixpoint lookup_class (c : Z) (keep : list (Z * Z)) : option Z :=
  match keep with
  | [] => None
  | (k, v) :: rest => if Z.eqb c k then Some v else lookup_class c rest
  end.

(** The loop of lines 151-156, with [keep] and [shift] as its state. *)
Fixpoint update_loop (to_remove : list Z) (cfg : list Z)
    (keep : list (Z * Z)) (shift : Z) : list (Z * Z) :=
  match cfg with
  | [] => keep
  | old_class :: cfg' =>
      if mem_Z old_class to_remove then
        update_loop to_remove cfg' keep (shift + 1)
      else
        match lookup_class old_class keep with
        | Some _ => update_loop to_remove cfg' keep shift
        | None => update_loop to_remove cfg' (keep ++ [(old_class, old_class - shift)]) shift
        end
  end.

(** [update_classes] (lines 112-157). [classes_config] is the sequence the
    loop iterates (the ids of a tuple or list, the keys of a dict); an empty
    one is falsy and raises ValueError. *)
Definition update_classes (classes_config to_remove : list Z) : result (list (Z * Z)) :=
  match classes_config with
  | [] => Raise ValueError
  | _ => Ok (update_loop to_remove classes_config [] 0)
  end.

(** ** Text helpers: Python [str] operations used on annotation lines *)

Definition nl : ascii := "010"%char.
Definition cr : ascii := "013"%char.

(** [s + '\n'] *)
Definition nl_line (s : string) : string := (s ++ String nl EmptyString)%string.

(** [''.join(parts)] *)
Definition join (parts : list string) : string :=
  fold_right String.append EmptyString parts.

(** The text of a file given as its lines, each ended by a newline. *)
Definition text_of_lines (ls : list string) : string := join (map nl_line ls).

(** Reading in text mode with universal newlines: [\r\n] and [\r] read as [\n]. *)
Fixpoint universal_newlines (s : string) : string :=
  match s with
  | EmptyString => EmptyString
  | String c rest =>
      if Ascii.eqb c cr then
        match rest with
        | String d rest' =>
            if Ascii.eqb d nl then String nl (universal_newlines rest')
            else String nl (universal_newlines rest)
        | EmptyString => String nl EmptyString
        end
      else String c (universal_newlines rest)
  end.

(** [f.readlines()]: lines keep their terminating newline. *)
Fixpoint readlines (s : string) : list string :=
  match s with
  | EmptyString => []
  | String c rest =>
      if Ascii.eqb c nl then String c EmptyString :: readlines rest
      else match readlines rest with
           | [] => [String c EmptyString]
           | l :: ls => String c l :: ls
           end
  end.

(** [line.split(' ', 1)] when it has two parts; [None] when the line has no
    space (the two-name unpacking then raises ValueError). *)
Fixpoint split_space (s : string) : option (string * string) :=
  match s with
  | EmptyString => None
  | String c rest =>
      if Ascii.eqb c " "%char then Some (EmptyString, rest)
      else match split_space rest with
           | Some (a, b) => Some (String c a, b)
           | None => None
           end
  end.

(** [line.split(' ', 1)[0]]: the text before the first space. *)
Definition first_token (s : string) : string :=
  match split_space s with
  | Some (a, _) => a
  | None => s
  end.

Definition is_digit (c : ascii) : bool :=
  (48 <=? nat_of_ascii c)%nat && (nat_of_ascii c <=? 57)%nat.

Definition digit_val (c : ascii) : Z := Z.of_nat (nat_of_ascii c) - 48.

(** [Py_ISSPACE]: the ASCII whitespace [PyLong_FromString] skips around
    the digits (space, [\t], [\n], [\v], [\f], [\r]). *)
Definition is_py_space (c : ascii) : bool :=
  let n := nat_of_ascii c in
  ((9 <=? n) && (n <=? 13))%nat || (n =? 32)%nat.

Fixpoint lstrip (s : string) : string :=
  match s with
  | String c rest => if is_py_space c then lstrip rest else s
  | EmptyString => EmptyString
  end.

Fixpoint rev_string (s : string) (acc : string) : string :=
  match s with
  | EmptyString => acc
  | String c rest => rev_string rest (String c acc)
  end.

Definition py_strip (s : string) : string :=
  rev_string (lstrip (rev_string (lstrip s) EmptyString)) EmptyString.

(** Decimal digits, a single [_] allowed between two digits. *)
Fixpoint digits_us (s : string) (acc : Z) : option Z :=
  match s with
  | EmptyString => Some acc
  | String c rest =>
      if is_digit c then digits_us rest (acc * 10 + digit_val c)
      else if Ascii.eqb c "_"%char then
        match rest with
        | String d rest' =>
            if is_digit d then digits_us rest' (acc * 10 + digit_val d) else None
        | EmptyString => None
        end
      else None
  end.

Definition parse_unsigned (s : string) : option Z :=
  match s with
  | String d rest => if is_digit d then digits_us rest (digit_val d) else None
  | EmptyString => None
  end.

(** ** Text as UTF-8

    File contents are the bytes on disk; the code opens every file with
    [encoding='utf-8'], so a Python [str] is the decoding of those bytes,
    and a [string] below is the UTF-8 encoding of a [str]. Line breaks,
    spaces, digits and signs are single ASCII bytes, which never occur
    inside the encoding of another character, so splitting lines and
    fields on the bytes splits the text. *)

Definition byte (c : ascii) : Z := Z.of_nat (nat_of_ascii c).

Definition in_range (lo hi : Z) (c : ascii) : bool := (lo <=? byte c) && (byte c <=? hi).

(** Strict UTF-8 decoding (Python's ['utf-8'] codec): the code points, or
    [None] for bytes that are not well-formed UTF-8 (stray or missing
    continuation bytes, overlong forms, surrogates, values above
    [U+10FFFF]). *)
Fixpoint utf8_decode (s : string) : option (list Z) :=
  match s with
  | EmptyString => Some []
  | String c r =>
      let b := byte c in
      if b <? 128 then option_map (cons b) (utf8_decode r)
      else if (194 <=? b) && (b <=? 223) then
        match r with
        | String c1 r1 =>
            if in_range 128 191 c1
            then option_map (cons ((b - 192) * 64 + (byte c1 - 128))) (utf8_decode r1)
            else None
        | EmptyString => None
        end
      else if (224 <=? b) && (b <=? 239) then
        match r with
        | String c1 (String c2 r2) =>
            if in_range (if b =? 224 then 160 else 128) (if b =? 237 then 159 else 191) c1
               && in_range 128 191 c2
            then option_map (cons ((b - 224) * 4096 + (byte c1 - 128) * 64 + (byte c2 - 128)))
                   (utf8_decode r2)
            else None
        | _ => None
        end
      else if (240 <=? b) && (b <=? 244) then
        match r with
        | String c1 (String c2 (String c3 r3)) =>
            if in_range (if b =? 240 then 144 else 128) (if b =? 244 then 143 else 191) c1
               && in_range 128 191 c2 && in_range 128 191 c3
            then option_map (cons ((b - 240) * 262144 + (byte c1 - 128) * 4096
                                   + (byte c2 - 128) * 64 + (byte c3 - 128)))
                   (utf8_decode r3)
            else None
        | _ => None
        end
      else None
  end.

(** Reading a file in text mode raises UnicodeDecodeError unless its
    bytes are UTF-8. *)
Definition utf8_valid (s : string) : bool :=
  match utf8_decode s with Some _ => true | None => false end.

(** The code points of the decimal digits zero (Unicode 14.0, the database
    of CPython 3.11): the characters [z], ..., [z + 9] are the digits
    0-9 of a script, and these are all the characters with a decimal
    value ([Py_UNICODE_TODECIMAL]). *)
Definition decimal_zeros : list Z :=
  [0x30; 0x660; 0x6F0; 0x7C0; 0x966; 0x9E6; 0xA66; 0xAE6; 0xB66; 0xBE6; 0xC66; 0xCE6; 0xD66;
   0xDE6; 0xE50; 0xED0; 0xF20; 0x1040; 0x1090; 0x17E0; 0x1810; 0x1946; 0x19D0; 0x1A80;
   0x1A90; 0x1B50; 0x1BB0; 0x1C40; 0x1C50; 0xA620; 0xA8D0; 0xA900; 0xA9D0; 0xA9F0;
   0xAA50; 0xABF0; 0xFF10; 0x104A0; 0x10D30; 0x11066; 0x110F0; 0x11136; 0x111D0;
   0x112F0; 0x11450; 0x114D0; 0x11650; 0x116C0; 0x11730; 0x118E0; 0x11950; 0x11C50;
   0x11D50; 0x11DA0; 0x16A60; 0x16AC0; 0x16B50; 0x1D7CE; 0x1D7D8; 0x1D7E2; 0x1D7EC;
   0x1D7F6; 0x1E140; 0x1E2F0; 0x1E950; 0x1FBF0].

(** [Py_UNICODE_TODECIMAL]. *)
Definition unicode_decimal (cp : Z) : option Z :=
  match List.find (fun z => (z <=? cp) && (cp <=? z + 9)) decimal_zeros with
  | Some z => Some (cp - z)
  | None => None
  end.

(** [Py_UNICODE_ISSPACE] above ASCII ([str.isspace]). *)
Definition unicode_space (cp : Z) : bool :=
  existsb (Z.eqb cp) [0x85; 0xA0; 0x1680; 0x2028; 0x2029; 0x202F; 0x205F; 0x3000]
  || (0x2000 <=? cp) && (cp <=? 0x200A).

(** [_PyUnicode_TransformDecimalAndSpaceToASCII]: ASCII is kept, other
    whitespace becomes a space, other decimal digits their ASCII digit;
    any other character ends the text with ['?'], which no int parses. *)
Fixpoint to_ascii_digits (cps : list Z) : string :=
  match cps with
  | [] => EmptyString
  | cp :: rest =>
      if cp <? 128 then String (ascii_of_nat (Z.to_nat cp)) (to_ascii_digits rest)
      else if unicode_space cp then String " "%char (to_ascii_digits rest)
      else match unicode_decimal cp with
           | Some d => String (ascii_of_nat (Z.to_nat (48 + d))) (to_ascii_digits rest)
           | None => String "?"%char EmptyString
           end
  end.

Fixpoint count_digits (s : string) : Z :=
  match s with
  | EmptyString => 0
  | String c rest => (if is_digit c then 1 else 0) + count_digits rest
  end.

(** [sys.get_int_max_str_digits()] by default: [int()] of a text with
    more digits, and [str()] of an int with more digits, raise ValueError. *)
Definition int_max_str_digits : Z := 4300.

(** [int(s)] for a [str] in base 10 ([PyLong_FromUnicodeObject]): the
    text is decoded, mapped to ASCII, stripped of ASCII whitespace, and
    must be an optional sign and decimal digits with single underscores
    between digits, at most [int_max_str_digits] of them. *)
Definition int_of_string (s : string) : result Z :=
  match utf8_decode s with
  | None => Raise UnicodeDecodeError
  | Some cps =>
  let t := py_strip (to_ascii_digits cps) in
  let r := match t with
           | String c rest =>
               if Ascii.eqb c "-"%char then option_map Z.opp (parse_unsigned rest)
               else if Ascii.eqb c "+"%char then parse_unsigned rest
               else parse_unsigned t
           | EmptyString => None
           end in
  match r with
  | Some z => if int_max_str_digits <? count_digits t then Raise ValueError else Ok z
  | None => Raise ValueError
  end
  end.

Fixpoint digits_of (fuel : nat) (n : Z) (acc : string) : string :=
  match fuel with
  | O => acc
  | S fuel' =>
      let acc' := String (ascii_of_nat (Z.to_nat (48 + n mod 10))) acc in
      if n / 10 =? 0 then acc' else digits_of fuel' (n / 10) acc'
  end.

(** [str(z)] for a Python int. *)
Definition str_Z (z : Z) : string :=
  let d := digits_of (S (Pos.size_nat (Z.to_pos (Z.abs z)))) (Z.abs z) EmptyString in
  if z <? 0 then String "-"%char d else d.

(** [str(z)] as Python evaluates it (also in an f-string or [%s]):
    ValueError for more than [int_max_str_digits] digits. *)
Definition py_str_int (z : Z) : result string :=
  if Z.abs z <? 10 ^ int_max_str_digits then Ok (str_Z z) else Raise ValueError.

(** ** Class removal: [TXTAnnotations.remove_class] *)

(** Lines 177-178: [cur_class, line_wo_class = line.split(' ', 1)] and
    [cur_class = int(cur_class)]. *)
Definition record_of (line : string) : result (Z * string) :=
  match split_space line with
  | None => Raise ValueError
  | Some (cur, line_wo_class) =>
      cur_class <- int_of_string cur ;;
      Ok (cur_class, line_wo_class)
  end.

(** The loop of lines 176-180 on the lines read from one file: the text
    written, and the exception that stopped the loop, if any. *)
Fixpoint remove_lines (keep : list (Z * Z)) (to_remove : list Z)
    (lines : list string) : string * option pyerr :=
  match lines with
  | [] => (EmptyString, None)
  | line :: rest =>
      match record_of line with
      | Raise e => (EmptyString, Some e)
      | Ok (cur_class, line_wo_class) =>
          if mem_Z cur_class to_remove then remove_lines keep to_remove rest
          else
            match lookup_class cur_class keep with
            | None => (EmptyString, Some KeyError)
            | Some v =>
                match py_str_int v with
                | Raise e => (EmptyString, Some e)
                | Ok sv =>
                    let '(out, err) := remove_lines keep to_remove rest in
                    ((sv ++ " " ++ line_wo_class ++ out)%string, err)
                end
            end
      end
  end.

(** The file after [seek(0)], the writes and [truncate()]; when the loop
    raises, [truncate()] is skipped and the written text only overwrites
    the start of the old content. *)
Definition after_rewrite (old written : string) (err : option pyerr) : string :=
  match err with
  | None => written
  | Some _ => (written ++ substring (String.length written) (String.length old) old)%string
  end.

(** The filesystem: path to content. *)
Abbreviation fs_t := (gmap string string).

(** The loop over the files [get_files] listed (lines 172-181). *)
Fixpoint remove_files (keep : list (Z * Z)) (to_remove : list Z)
    (files : list string) (fs : fs_t) : result unit * fs_t :=
  match files with
  | [] => (Ok tt, fs)
  | p :: ps =>
      match fs !! p with
      | None => (Raise FileNotFoundError, fs)
      | Some old =>
          if negb (utf8_valid old) then (Raise UnicodeDecodeError, fs) else
          let '(written, err) := remove_lines keep to_remove (readlines (universal_newlines old)) in
          let fs' := <[p := after_rewrite old written err]> fs in
          match err with
          | Some e => (Raise e, fs')
          | None => remove_files keep to_remove ps fs'
          end
      end
  end.

(** [remove_class] (lines 159-181); [files] is what [get_files] returned. *)
Definition remove_class (classes_config to_remove : list Z) (files : list string)
    (fs : fs_t) : result unit * fs_t :=
  match update_classes classes_config to_remove with
  | Raise e => (Raise e, fs)
  | Ok keep => remove_files keep to_remove files fs
  end.

(** ** Reference descriptions used to state properties of the remap *)

(** [a, a+1, ..., a+n-1]; [zseq 0 n] is [range(n)]. *)
Fixpoint zseq (a : Z) (n : nat) : list Z :=
  match n with
  | O => []
  | S n' => a :: zseq (a + 1) n'
  end.

(** The ids of [classes_config] that are not in [to_remove], in order. *)
Definition survivors (to_remove cfg : list Z) : list Z :=
  List.filter (fun c => negb (mem_Z c to_remove)) cfg.

(** The entries the loop of [update_classes] appends to [keep] when the
    config has no duplicates: each survivor [c] maps to [c - shift], with
    [shift] the number of removed ids seen before it. *)
Fixpoint keep_entries (to_remove cfg : list Z) (shift : Z) : list (Z * Z) :=
  match cfg with
  | [] => []
  | c :: cfg' =>
      if mem_Z c to_remove then keep_entries to_remove cfg' (shift + 1)
      else (c, c - shift) :: keep_entries to_remove cfg' shift
  end.

(** A record (id, rest of line) that [remove_class] can neither drop nor
    remap: its id is not in [to_remove] and has no entry in [keep]. *)
Definition unmapped (keep : list (Z * Z)) (to_remove : list Z) (r : Z * string) : bool :=
  negb (mem_Z (fst r) to_remove) &&
  match lookup_class (fst r) keep with None => true | Some _ => false end.

(** The line written for a kept record with a remap entry: the new id, a
    space, and the rest of the line as read. *)
Definition rewritten_line (keep : list (Z * Z)) (r : Z * string) : string :=
  match lookup_class (fst r) keep with
  | Some v => (str_Z v ++ " " ++ snd r)%string
  | None => EmptyString
  end.

(** ** Class counting: [counter] (dl/annotate/analyse.py) *)

(** Keys of the tally dict: the ints of [classes] and the [str] tokens
    read from the files. In Python [0 == '0'] is False. *)
Inductive pykey :=
| KInt (z : Z)
| KStr (s : string).

Definition pykey_eqb (a b : pykey) : bool :=
  match a, b with
  | KInt x, KInt y => Z.eqb x y
  | KStr x, KStr y => String.eqb x y
  | _, _ => false
  end.

(** A dict in insertion order. *)
Fixpoint dict_get (k : pykey) (d : list (pykey * Z)) : option Z :=
  match d with
  | [] => None
  | (k', v) :: d' => if pykey_eqb k k' then Some v else dict_get k d'
  end.

(** [d[k] = v]: updates in place, or appends a new key. *)
Fixpoint dict_set (k : pykey) (v : Z) (d : list (pykey * Z)) : list (pykey * Z) :=
  match d with
  | [] => [(k, v)]
  | (k', v') :: d' => if pykey_eqb k k' then (k', v) :: d' else (k', v') :: dict_set k v d'
  end.

(** Lines 30-32: [if clss not in cnt: cnt[clss] = -1] then [cnt[clss] += 1]. *)
Definition bump (k : pykey) (cnt : list (pykey * Z)) : list (pykey * Z) :=
  let cnt := match dict_get k cnt with
             | None => dict_set k (-1) cnt
             | Some _ => cnt
             end in
  match dict_get k cnt with
  | Some n => dict_set k (n + 1) cnt
  | None => cnt
  end.

(** Line 29: [while clss := txt.readline().split(' ', 1)[0]]; the loop
    stops at the end of the file (readline gives [''])
    or at a line whose first token is empty (a line starting with a space). *)
Fixpoint count_lines (lines : list string) (cnt : list (pykey * Z)) : list (pykey * Z) :=
  match lines with
  | [] => cnt
  | line :: rest =>
      let clss := first_token line in
      if String.eqb clss EmptyString then cnt
      else count_lines rest (bump (KStr clss) cnt)
  end.

(** Python's [str] order: by code point, which on UTF-8 text is the
    byte order. *)
Fixpoint str_ltb (a b : string) : bool :=
  match a, b with
  | EmptyString, String _ _ => true
  | _, EmptyString => false
  | String c a', String d b' =>
      if (nat_of_ascii c <? nat_of_ascii d)%nat then true
      else if (nat_of_ascii c =? nat_of_ascii d)%nat then str_ltb a' b'
      else false
  end.

Definition key_ltb (a b : pykey) : bool :=
  match a, b with
  | KInt x, KInt y => Z.ltb x y
  | KStr x, KStr y => str_ltb x y
  | _, _ => false
  end.

Fixpoint insert_sorted (x : pykey * Z) (l : list (pykey * Z)) : list (pykey * Z) :=
  match l with
  | [] => [x]
  | y :: l' => if key_ltb (fst y) (fst x) then y :: insert_sorted x l' else x :: l
  end.

Definition is_int_key (k : pykey) : bool := match k with KInt _ => true | KStr _ => false end.

(** [sorted(cnt.items())]. The keys of a dict are distinct, so two items
    compare by their keys; an int key and a str key do not compare
    ([<] raises TypeError), and sorting a list that holds both kinds
    compares some such pair. *)
Definition sorted_items (cnt : list (pykey * Z)) : result (list (pykey * Z)) :=
  if forallb (fun kv => is_int_key (fst kv)) cnt
     || forallb (fun kv => negb (is_int_key (fst kv))) cnt
  then Ok (fold_right insert_sorted [] cnt)
  else Raise TypeError.

(** [counter] (analyse.py, lines 6-33); [files] are the contents of the
    files the glob matched, in glob order, read as UTF-8 text (on other
    bytes the reading raises UnicodeDecodeError, which is not modelled
    here). *)
Definition counter (classes : list pykey) (files : list string) : result (list (pykey * Z)) :=
  let cnt := fold_left (fun d cl => dict_set cl 0 d) classes [] in
  let cnt := fold_left (fun d txt => count_lines (readlines (universal_newlines txt)) d) files cnt in
  sorted_items cnt.

(** ** Path helpers (helpers/path_and_files_processing.py) *)

Fixpoint has_char (ch : ascii) (s : string) : bool :=
  match s with
  | EmptyString => false
  | String c r => Ascii.eqb c ch || has_char ch r
  end.

Definition slash : ascii := "/"%char.
Definition dot : ascii := "."%char.

(** [os.path.split(path)[-1]]: the text after the last [/]. *)
Fixpoint basename (s : string) : string :=
  match s with
  | EmptyString => EmptyString
  | String c r =>
      if has_char slash r then basename r
      else if Ascii.eqb c slash then r
      else String c r
  end.

(** [s.split('.', 1)[0]]: the text before the first [.]. *)
Fixpoint before_dot (s : string) : string :=
  match s with
  | EmptyString => EmptyString
  | String c r => if Ascii.eqb c dot then EmptyString else String c (before_dot r)
  end.

(** [get_filename] (lines 21-30). *)
Definition get_filename (path : string) : string := before_dot (basename path).

(** [combine_path(folder, filename)] with the default extension ['txt']
    (lines 33-54). *)
Definition combine_path (folder filename : string) : string :=
  (folder ++ String slash (filename ++ String dot "txt"))%string.

(** ** [TXTAnnotations.add_txt] *)

(** The loop of lines 107-110 over the images [get_files] listed; the
    filesystem maps each path to the file's content. *)
Fixpoint add_txt_loop (txt_path : string) (imgs : list string) (fs : fs_t) : fs_t :=
  match imgs with
  | [] => fs
  | img :: imgs' =>
      let txt_file := combine_path txt_path (get_filename img) in
      match fs !! txt_file with
      | Some _ => add_txt_loop txt_path imgs' fs
      | None => add_txt_loop txt_path imgs' (<[txt_file := EmptyString]> fs)
      end
  end.

(** [add_txt] (lines 97-110): [glob_images fs] is what
    [get_files(self.images_path, filename)] lists on the filesystem [fs]. *)
Definition add_txt (glob_images : fs_t -> list string) (txt_path : string) (fs : fs_t) : fs_t :=
  add_txt_loop txt_path (glob_images fs) fs.

(** A concrete listing for [get_files('imgs', '*')]: the files whose path
    starts with [imgs/]. *)
Definition glob_imgs (fs : fs_t) : list string :=
  List.filter (fun p => String.prefix "imgs/" p) (map fst (map_to_list fs)).

(** ** JSON import: [JSON2TXT.json2txt] *)

(** A JSON annotation of the documented shape: [size.width], [size.height]
    and the objects' [classId] and exterior points. *)
Record json_obj := { classId : Z; exterior : list (Z * Z) }.
Record json_doc := { size_width : Z; size_height : Z; objects : list json_obj }.

(** The lines written for the objects (lines 259-267): the text written and
    the exception that stopped the loop, if any. [float_repr] is Python's
    [str] of a float (the [%s] of [YOLO_FORMAT]). *)
Fixpoint write_objects (map_config : list (Z * Z)) (float_repr : float64 -> string)
    (width height : Z) (objs : list json_obj) : string * option pyerr :=
  match objs with
  | [] => (EmptyString, None)
  | obj :: objs' =>
      match exterior obj with
      | [] => (EmptyString, Some IndexError)
      | p0 :: _ =>
          let '(xmin, ymin) := p0 in
          let '(xmax, ymax) := List.last (exterior obj) p0 in
          match bbox2yolo width height xmin ymin xmax ymax with
          | Raise e => (EmptyString, Some e)
          | Ok (x, y, w, h) =>
              match lookup_class (classId obj) map_config with
              | None => (EmptyString, Some KeyError)
              | Some class_id =>
                  match py_str_int class_id with
                  | Raise e => (EmptyString, Some e)
                  | Ok sc =>
                      let line := nl_line (sc ++ " " ++ float_repr x ++ " " ++
                                           float_repr y ++ " " ++ float_repr w ++ " " ++
                                           float_repr h)%string in
                      let '(out, err) := write_objects map_config float_repr width height objs' in
                      ((line ++ out)%string, err)
                  end
              end
          end
      end
  end.

(** One iteration of lines 249-267. The json file is opened for reading,
    then the txt file is opened with ['w+'], which truncates it, and only
    then [json.load] reads the json file ([json_load] returns [None] when
    it raises). The text written so far is flushed when the [with] block
    closes, also on an exception. *)
Definition json2txt_file (json_load : string -> option json_doc) (float_repr : float64 -> string)
    (map_config : list (Z * Z)) (txt_path json_file : string) (fs : fs_t) : result unit * fs_t :=
  match fs !! json_file with
  | None => (Raise FileNotFoundError, fs)
  | Some _ =>
      let txt_file := combine_path txt_path (get_filename json_file) in
      let fs1 := <[txt_file := EmptyString]> fs in
      match fs1 !! json_file with
      | None => (Raise FileNotFoundError, fs1)
      | Some content =>
          if negb (utf8_valid content) then (Raise UnicodeDecodeError, fs1) else
          match json_load content with
          | None => (Raise JSONDecodeError, fs1)
          | Some data =>
              let '(out, err) := write_objects map_config float_repr
                                   (size_width data) (size_height data) (objects data) in
              let fs2 := <[txt_file := out]> fs1 in
              match err with
              | None => (Ok tt, fs2)
              | Some e => (Raise e, fs2)
              end
          end
      end
  end.

(** [json2txt] (lines 242-267): [json_files] is what the glob listed. *)
Fixpoint json2txt (json_load : string -> option json_doc) (float_repr : float64 -> string)
    (map_config : list (Z * Z)) (txt_path : string) (json_files : list string) (fs : fs_t)
    : result unit * fs_t :=
  match json_files with
  | [] => (Ok tt, fs)
  | j :: js =>
      match json2txt_file json_load float_repr map_config txt_path j fs with
      | (Ok _, fs') => json2txt json_load float_repr map_config txt_path js fs'
      | (Raise e, fs') => (Raise e, fs')
      end
  end.

(** ** [TXTAnnotations.replace_classes] *)

(** The loop of lines 200-203 on the lines read from one file: every
    record is written with [to_replace_with[cur_class]] as its id; the
    text written, and the exception that stopped the loop, if any. *)
Fixpoint replace_lines (to_replace_with : list (Z * Z)) (lines : list string)
    : string * option pyerr :=
  match lines with
  | [] => (EmptyString, None)
  | line :: rest =>
      match record_of line with
      | Raise e => (EmptyString, Some e)
      | Ok (cur_class, line_wo_class) =>
          match lookup_class cur_class to_replace_with with
          | None => (EmptyString, Some KeyError)
          | Some v =>
              match py_str_int v with
              | Raise e => (EmptyString, Some e)
              | Ok sv =>
                  let '(out, err) := replace_lines to_replace_with rest in
                  ((sv ++ " " ++ line_wo_class ++ out)%string, err)
              end
          end
      end
  end.

(** The loop over the files [get_files] listed (lines 196-204). *)
Fixpoint replace_files (to_replace_with : list (Z * Z)) (files : list string) (fs : fs_t)
    : result unit * fs_t :=
  match files with
  | [] => (Ok tt, fs)
  | p :: ps =>
      match fs !! p with
      | None => (Raise FileNotFoundError, fs)
      | Some old =>
          if negb (utf8_valid old) then (Raise UnicodeDecodeError, fs) else
          let '(written, err) := replace_lines to_replace_with (readlines (universal_newlines old)) in
          let fs' := <[p := after_rewrite old written err]> fs in
          match err with
          | Some e => (Raise e, fs')
          | None => replace_files to_replace_with ps fs'
          end
      end
  end.

(** [replace_classes] (lines 183-204). Line 194 makes the dict the new
    [classes_config]; a later [update_classes] iterates its keys. The
    first component is that new config. *)
Definition replace_classes (to_replace_with : list (Z * Z)) (files : list string) (fs : fs_t)
    : list Z * (result unit * fs_t) :=
  (map fst to_replace_with, replace_files to_replace_with files fs).

(** ** [TXTAnnotations.empty_txt] *)

(** [empty_txt] (lines 83-95) on the files [get_files] listed: each one is
    opened with ['w'], which truncates it. *)
Fixpoint empty_txt (files : list string) (fs : fs_t) : fs_t :=
  match files with
  | [] => fs
  | txt :: files' => empty_txt files' (<[txt := EmptyString]> fs)
  end.

(** ** [read_and_update] (helpers/path_and_files_processing.py) *)

(** The loop of lines 88-90: [inner_func] may raise; an empty output is
    falsy and writes nothing. *)
Fixpoint update_lines (inner_func : string -> result string) (lines : list string)
    : string * option pyerr :=
  match lines with
  | [] => (EmptyString, None)
  | line :: rest =>
      match inner_func line with
      | Raise e => (EmptyString, Some e)
      | Ok out =>
          let '(written, err) := update_lines inner_func rest in
          if String.eqb out EmptyString then (written, err)
          else ((out ++ written)%string, err)
      end
  end.

(** [read_and_update] (lines 70-91); [files] is what [get_files] returned
    and [inner_func] is [inner_func(line, **inner_vars)]. *)
Fixpoint read_and_update (inner_func : string -> result string) (files : list string)
    (fs : fs_t) : result unit * fs_t :=
  match files with
  | [] => (Ok tt, fs)
  | p :: ps =>
      match fs !! p with
      | None => (Raise FileNotFoundError, fs)
      | Some old =>
          if negb (utf8_valid old) then (Raise UnicodeDecodeError, fs) else
          let '(written, err) := update_lines inner_func (readlines (universal_newlines old)) in
          let fs' := <[p := after_rewrite old written err]> fs in
          match err with
          | Some e => (Raise e, fs')
          | None => read_and_update inner_func ps fs'
          end
      end
  end.

(** ** Reference descriptions for the remap of a config with repetitions *)

(** The entries of [cfg] before the first occurrence of [c]. *)
Fixpoint prefix_before (c : Z) (cfg : list Z) : list Z :=
  match cfg with
  | [] => []
  | x :: cfg' => if Z.eqb x c then [] else x :: prefix_before c cfg'
  end.

(** The number of entries of [l] that are in [to_remove], with repetitions. *)
Definition removed_count (to_remove l : list Z) : Z :=
  Z.of_nat (length (List.filter (fun x => mem_Z x to_remove) l)).

(** The composition [m2[m1[k]]], for the keys [k] of [m1] whose image is a
    key of [m2]. *)
Definition compose_map (m1 m2 : list (Z * Z)) : list (Z * Z) :=
  flat_map (fun kv => match lookup_class (snd kv) m2 with
                      | Some w => [(fst kv, w)]
                      | None => []
                      end) m1.

(** Every character of [s] is an ASCII digit. *)
Fixpoint all_digits (s : string) : bool :=
  match s with
  | EmptyString => true
  | String c s' => is_digit c && all_digits s'
  end.

(** The value of the digit string [s], read after the accumulator [a]. *)
Fixpoint val_digits (s : string) (a : Z) : Z :=
  match s with
  | EmptyString => a
  | String c s' => val_digits s' (a * 10 + digit_val c)
  end.

(** Every character of [s] satisfies [p]. *)
Fixpoint all_chars (p : ascii -> bool) (s : string) : bool :=
  match s with
  | EmptyString => true
  | String c s' => p c && all_chars p s'
  end.

(** A newline of [s], if any, is its last character. *)
Fixpoint nl_last (s : string) : bool :=
  match s with
  | EmptyString => true
  | String c r => if Ascii.eqb c nl then String.eqb r EmptyString else nl_last r
  end.

(** [s] ends with a newline. *)
Fixpoint ends_nl (s : string) : bool :=
  match s with
  | EmptyString => false
  | String c r => match r with EmptyString => Ascii.eqb c nl | _ => ends_nl r end
  end.

(** The shape of the list [f.readlines()] returns: no empty line, a
    newline only at the end of a line, and every line but the last ends
    with one. *)
Fixpoint lines_ok (ls : list string) : bool :=
  match ls with
  | [] => true
  | l :: ls' =>
      negb (String.eqb l EmptyString) && nl_last l &&
      (ends_nl l || match ls' with [] => true | _ => false end) && lines_ok ls'
  end.

(** The [bbox2yolo] call of lines 260-264 for [obj]: [None] when its
    [exterior] is empty ([points[0]] raises IndexError). *)
Definition obj_box (width height : Z) (obj : json_obj)
    : option (result (float64 * float64 * float64 * float64)) :=
  match exterior obj with
  | [] => None
  | p0 :: _ =>
      let '(xmin, ymin) := p0 in
      let '(xmax, ymax) := List.last (exterior obj) p0 in
      Some (bbox2yolo width height xmin ymin xmax ymax)
  end.

(** An object that [json2txt] turns into a line: a non-empty [exterior]
    (so [points[0]] and [points[-1]] exist), a box on which [bbox2yolo]
    raises nothing, and a mapped class whose [str] is within the limit on
    int digits. *)
Definition obj_ok (map_config : list (Z * Z)) (width height : Z) (obj : json_obj) : bool :=
  match obj_box width height obj with
  | Some (Ok _) =>
      match lookup_class (classId obj) map_config with
      | Some v => Z.abs v <? 10 ^ int_max_str_digits
      | None => false
      end
  | _ => false
  end.

(** [line] is the YOLO line written for [obj]: the mapped class, a space,
    the box fields and a newline. *)
Definition yolo_line (map_config : list (Z * Z)) (line : string) (obj : json_obj) : Prop :=
  exists v rest, lookup_class (classId obj) map_config = Some v /\ has_char nl rest = false /\
    line = nl_line (str_Z v ++ String " " rest).

(** The invariant of the counter dictionary built from int [classes]: its
    keys are distinct and every entry is [(KInt c, 0)] for a [c] of
    [classes]. *)
Definition init_inv (classes : list Z) (d : list (pykey * Z)) : Prop :=
  NoDup (map fst d) /\ forall kv, In kv d -> snd kv = 0 /\ exists c, fst kv = KInt c /\ In c classes.

(* DEFS-END *)

(** * Theorems *)

(** ** Geometry codec *)

Example yolo2bbox_ex : yolo2bbox 12.5 3.75 5.0 (-0.5) = Ok (10, 4, 15, 3).
Proof. vm_compute. reflexivity. Qed.

Lemma py_int_spec (f : float) :
  match py_int f with
  | Ok z => is_trunc f z
  | Raise _ => is_finite_float f = false
  end.
Proof.
  unfold py_int, is_trunc, is_finite_float.
  destruct (Prim2SF f) as [s|s| |s m e]; try reflexivity.
  destruct (0 <=? e) eqn:He.
  - apply Z.leb_le in He.
    rewrite (Z.max_r 0 e) by lia. rewrite (Z.max_l 0 (- e)) by lia.
    simpl Z.pow. destruct s; split; intros; lia.
  - apply Z.leb_gt in He.
    rewrite (Z.max_l 0 e) by lia. rewrite (Z.max_r 0 (- e)) by lia.
    assert (Hd : 0 < 2 ^ (- e)) by (apply Z.pow_pos_nonneg; lia).
    pose proof (Z.div_mod (Z.pos m) (2 ^ (- e)) ltac:(lia)) as Hdm.
    pose proof (Z.mod_pos_bound (Z.pos m) (2 ^ (- e)) Hd) as Hb.
    simpl Z.pow. destruct s; split; intros; nia.
Qed.

(** Claim C7: [yolo2bbox x y w h] returns the truncations toward zero of
    [x - w/2], [y - h/2], [x + w/2] and [y + h/2] (binary64 expressions,
    as Python evaluates them), with no rescaling by an image size; it
    returns a box exactly when these four values are finite ([int] of a
    NaN or an infinity raises). *)
Theorem yolo2bbox_truncates (x y w h : float) :
  match yolo2bbox x y w h with
  | Ok (xmin, ymin, xmax, ymax) =>
      is_trunc (x - w / 2)%float xmin /\ is_trunc (y - h / 2)%float ymin /\
      is_trunc (x + w / 2)%float xmax /\ is_trunc (y + h / 2)%float ymax
  | Raise _ =>
      is_finite_float (x - w / 2)%float && is_finite_float (y - h / 2)%float &&
      is_finite_float (x + w / 2)%float && is_finite_float (y + h / 2)%float = false
  end.
Proof.
  unfold yolo2bbox, bind.
  pose proof (py_int_spec (x - w / 2)%float) as H1.
  pose proof (py_int_spec (y - h / 2)%float) as H2.
  pose proof (py_int_spec (x + w / 2)%float) as H3.
  pose proof (py_int_spec (y + h / 2)%float) as H4.
  destruct (py_int (x - w / 2)%float); [|now rewrite H1].
  destruct (py_int (y - h / 2)%float); [|now rewrite H2, andb_false_r].
  destruct (py_int (x + w / 2)%float); [|now rewrite H3, !andb_false_r].
  destruct (py_int (y + h / 2)%float); [|now rewrite H4, !andb_false_r].
  auto.
Qed.

(** ** Class remapping *)

Lemma mem_Z_In (c : Z) (l : list Z) : mem_Z c l = true <-> In c l.
Proof.
  unfold mem_Z. rewrite existsb_exists. split.
  - intros (x & Hx & E). apply Z.eqb_eq in E. now subst.
  - intros H. exists c. split; [exact H | apply Z.eqb_refl].
Qed.

Lemma lookup_class_app (c : Z) (l1 l2 : list (Z * Z)) :
  lookup_class c (l1 ++ l2) =
  match lookup_class c l1 with Some v => Some v | None => lookup_class c l2 end.
Proof.
  induction l1 as [|[k v] l1 IH]; simpl; [reflexivity|].
  destruct (Z.eqb c k); auto.
Qed.

Lemma lookup_class_None (c : Z) (l : list (Z * Z)) :
  lookup_class c l = None <-> ~ In c (map fst l).
Proof.
  induction l as [|[k v] l IH]; simpl; [tauto|].
  destruct (Z.eqb c k) eqn:E.
  - apply Z.eqb_eq in E. subst. split; [discriminate | tauto].
  - apply Z.eqb_neq in E. rewrite IH. split; intros H; [intros [|]|]; auto.
Qed.

Lemma update_loop_zseq (R : list Z) (m : nat) :
  forall (k s : Z) (keep : list (Z * Z)),
  Forall (fun p => fst p < k) keep ->
  map fst (update_loop R (zseq k m) keep s) = map fst keep ++ survivors R (zseq k m) /\
  map snd (update_loop R (zseq k m) keep s) =
    map snd keep ++ zseq (k - s) (length (survivors R (zseq k m))).
Proof.
  induction m as [|m IH]; intros k s keep Hk; simpl.
  - now rewrite !app_nil_r.
  - unfold survivors in *. simpl.
    destruct (mem_Z k R) eqn:Hm; simpl.
    + destruct (IH (k + 1) (s + 1) keep) as [H1 H2].
      { eapply Forall_impl; [exact Hk|]. simpl. intros; lia. }
      split; [exact H1|]. rewrite H2. do 2 f_equal. lia.
    + assert (Hn : lookup_class k keep = None).
      { apply lookup_class_None. rewrite in_map_iff. intros ([k' v] & E & Hin).
        simpl in E. subst. rewrite List.Forall_forall in Hk. specialize (Hk _ Hin). simpl in Hk. lia. }
      rewrite Hn.
      destruct (IH (k + 1) s (keep ++ [(k, k - s)])) as [H1 H2].
      { apply Forall_app. split; [|constructor; simpl; [lia | constructor]].
        eapply Forall_impl; [exact Hk|]. simpl. intros; lia. }
      rewrite H1, H2, !map_app, <- !app_assoc. simpl.
      split; [reflexivity|]. do 3 f_equal. lia.
Qed.

(** Claim C1 (as amended): when the Class Config is [0, 1, ..., M-1]
    (non-empty), the remap returned by [update_classes] maps exactly the
    surviving ids, in config order, and its values are [0, 1, ..., N-1]
    in that order, N being the number of survivors: the image is exactly
    [{0, ..., N-1}]. *)
Theorem update_classes_gap_free (M : nat) (to_remove : list Z) (HM : (0 < M)%nat) :
  exists keep,
    update_classes (zseq 0 M) to_remove = Ok keep /\
    map fst keep = survivors to_remove (zseq 0 M) /\
    map snd keep = zseq 0 (length keep).
Proof.
  destruct (update_loop_zseq to_remove M 0 0 [] (List.Forall_nil _)) as [H1 H2].
  exists (update_loop to_remove (zseq 0 M) [] 0).
  split; [destruct M; [lia | reflexivity]|].
  split; [exact H1|].
  rewrite H2. simpl. f_equal.
  rewrite <- (length_map fst), H1. reflexivity.
Qed.

Lemma update_classes_gap_free_witness :
  (0 < 4)%nat /\
  exists keep,
    update_classes (zseq 0 4) [1; 3] = Ok keep /\
    map fst keep = survivors [1; 3] (zseq 0 4) /\
    map snd keep = zseq 0 (length keep).
Proof. split; [lia | apply (update_classes_gap_free 4 [1; 3]); lia]. Defined.

(** Claim C1, as stated for every non-empty config, fails: with the config
    [(0, 2)] and nothing removed, two classes survive but the image of the
    remap is [{0, 2}], not [{0, 1}]. *)
Lemma update_classes_gap_free_cex :
  ~ (forall keep, update_classes [0; 2] [] = Ok keep ->
       forall v, In v (map snd keep) <-> 0 <= v < Z.of_nat (length (survivors [] [0; 2]))).
Proof.
  intros H. specialize (H [(0, 0); (2, 2)] eq_refl 2). simpl in H.
  destruct H as [H _]. specialize (H (or_intror (or_introl eq_refl))). lia.
Qed.

Lemma update_loop_entries (R cfg : list Z) :
  NoDup cfg ->
  forall (keep : list (Z * Z)) (s : Z),
  (forall c, In c cfg -> lookup_class c keep = None) ->
  update_loop R cfg keep s = keep ++ keep_entries R cfg s.
Proof.
  induction cfg as [|c cfg IH]; intros Hnd keep s Hfresh; simpl.
  - now rewrite app_nil_r.
  - apply NoDup_cons in Hnd as [Hc Hnd].
    destruct (mem_Z c R).
    + apply IH; auto. intros c' Hin. apply Hfresh. now right.
    + rewrite (Hfresh c (or_introl eq_refl)).
      rewrite IH; auto.
      * now rewrite <- app_assoc.
      * intros c' Hin. rewrite lookup_class_app, (Hfresh c' (or_intror Hin)). simpl.
        destruct (Z.eqb_spec c' c); [subst; apply list_elem_of_In in Hin; contradiction | reflexivity].
Qed.

Lemma keep_entries_keys (R cfg : list Z) (s : Z) (c : Z) :
  In c (map fst (keep_entries R cfg s)) -> In c cfg.
Proof.
  revert s. induction cfg as [|c' cfg IH]; intros s; simpl; [tauto|].
  destruct (mem_Z c' R); simpl.
  - intros H. right. eapply IH; eauto.
  - intros [H|H]; [now left | right; eapply IH; eauto].
Qed.

Lemma keep_entries_app (R l1 l2 : list Z) (s : Z) :
  exists s', keep_entries R (l1 ++ l2) s = keep_entries R l1 s ++ keep_entries R l2 s'.
Proof.
  revert s. induction l1 as [|c l1 IH]; intros s; simpl; [now exists s|].
  destruct (mem_Z c R).
  - apply IH.
  - destruct (IH s) as [s' E]. exists s'. now rewrite E.
Qed.

Lemma keep_entries_lower (R cfg : list Z) :
  StronglySorted Z.lt cfg ->
  forall (L s : Z), List.Forall (fun x => L <= x) cfg ->
  List.Forall (fun v => L - s <= v) (map snd (keep_entries R cfg s)).
Proof.
  induction cfg as [|c cfg IH]; intros Hs L s HL; simpl; [constructor|].
  apply StronglySorted_inv in Hs as [Hs Hlt].
  inversion HL as [|? ? HLc HLr]; subst.
  assert (Hc1 : List.Forall (fun x => c + 1 <= x) cfg).
  { eapply List.Forall_impl; [|exact Hlt]. simpl. intros; lia. }
  destruct (mem_Z c R).
  - eapply List.Forall_impl; [|apply (IH Hs (c + 1) (s + 1) Hc1)]. simpl. intros; lia.
  - simpl. constructor; [lia|].
    eapply List.Forall_impl; [|apply (IH Hs (c + 1) s Hc1)]. simpl. intros; lia.
Qed.

Lemma keep_entries_sorted (R cfg : list Z) (s : Z) :
  StronglySorted Z.lt cfg -> StronglySorted Z.lt (map snd (keep_entries R cfg s)).
Proof.
  revert s. induction cfg as [|c cfg IH]; intros s Hs; simpl; [constructor|].
  pose proof Hs as Hs'. apply StronglySorted_inv in Hs' as [Hcfg Hlt].
  destruct (mem_Z c R); [now apply IH|].
  simpl. constructor; [now apply IH|].
  assert (Hc1 : List.Forall (fun x => c + 1 <= x) cfg).
  { eapply List.Forall_impl; [|exact Hlt]. simpl. intros; lia. }
  eapply List.Forall_impl; [|apply (keep_entries_lower R cfg Hcfg (c + 1) s Hc1)].
  simpl. intros; lia.
Qed.

Lemma StronglySorted_NoDup (l : list Z) : StronglySorted Z.lt l -> NoDup l.
Proof.
  induction l as [|c l IH]; intros Hs; [constructor|].
  apply StronglySorted_inv in Hs as [Hs Hlt]. constructor; [|now apply IH].
  intros Hin. apply list_elem_of_In in Hin. rewrite List.Forall_forall in Hlt. specialize (Hlt c Hin). lia.
Qed.

Lemma StronglySorted_app_r (l1 l2 : list Z) :
  StronglySorted Z.lt (l1 ++ l2) -> StronglySorted Z.lt l2.
Proof.
  induction l1 as [|c l1 IH]; simpl; [tauto|].
  intros Hs. apply StronglySorted_inv in Hs as [Hs _]. now apply IH.
Qed.

(** Claim C2 (as amended): when the Class Config is strictly increasing
    (sorted without duplicates, as the constructor documents), for any
    [to_remove], if [a] and [b] both survive and [a] comes before [b] in
    the config, then [keep[a] < keep[b]]. *)
Theorem update_classes_order_preserving (l1 l2 l3 to_remove : list Z) (a b : Z)
    (Hsorted : StronglySorted Z.lt (l1 ++ a :: l2 ++ b :: l3))
    (Ha : ~ In a to_remove) (Hb : ~ In b to_remove) :
  exists keep va vb,
    update_classes (l1 ++ a :: l2 ++ b :: l3) to_remove = Ok keep /\
    lookup_class a keep = Some va /\ lookup_class b keep = Some vb /\ va < vb.
Proof.
  set (cfg := l1 ++ a :: l2 ++ b :: l3) in *.
  pose proof (StronglySorted_NoDup cfg Hsorted) as Hnd.
  assert (Hma : mem_Z a to_remove = false).
  { destruct (mem_Z a to_remove) eqn:E; [apply mem_Z_In in E; contradiction | reflexivity]. }
  assert (Hmb : mem_Z b to_remove = false).
  { destruct (mem_Z b to_remove) eqn:E; [apply mem_Z_In in E; contradiction | reflexivity]. }
  assert (Hloop : update_loop to_remove cfg [] 0 = keep_entries to_remove cfg 0).
  { apply update_loop_entries; auto. }
  destruct (keep_entries_app to_remove l1 (a :: l2 ++ b :: l3) 0) as [s1 E1].
  simpl in E1. rewrite Hma in E1.
  destruct (keep_entries_app to_remove l2 (b :: l3) s1) as [s2 E2].
  simpl in E2. rewrite Hmb in E2.
  rewrite E2 in E1.
  change (l1 ++ a :: l2 ++ b :: l3) with cfg in E1.
  set (K1 := keep_entries to_remove l1 0) in *.
  set (K2 := keep_entries to_remove l2 s1) in *.
  set (K3 := keep_entries to_remove l3 s2) in *.
  assert (Hnd' := Hnd). unfold cfg in Hnd'.
  apply NoDup_app in Hnd' as (_ & Hdisj & Hnd2).
  apply NoDup_cons in Hnd2 as [Ha2 Hnd2].
  apply NoDup_app in Hnd2 as (_ & Hdisj2 & _).
  assert (Ha1 : ~ In a l1).
  { intros Hin. apply (Hdisj a); [now apply list_elem_of_In | left]. }
  assert (Hb1 : ~ In b l1).
  { intros Hin. apply (Hdisj b); [now apply list_elem_of_In |].
    right. apply elem_of_app. right. left. }
  assert (Hb2 : ~ In b l2).
  { intros Hin. apply (Hdisj2 b); [now apply list_elem_of_In | left]. }
  assert (Hab : a <> b).
  { intros ->. apply Ha2. apply elem_of_app. right. left. }
  exists (keep_entries to_remove cfg 0), (a - s1), (b - s2).
  split; [|split; [|split]].
  - assert (Hcfg : update_classes cfg to_remove = Ok (update_loop to_remove cfg [] 0))
      by (unfold cfg; destruct l1; reflexivity).
    exact (eq_trans Hcfg (f_equal Ok Hloop)).
  - rewrite E1, lookup_class_app.
    assert (HK1 : lookup_class a K1 = None).
    { apply lookup_class_None. intros Hin. apply Ha1. eapply keep_entries_keys; eauto. }
    rewrite HK1. simpl. now rewrite Z.eqb_refl.
  - rewrite E1, lookup_class_app.
    assert (HK1 : lookup_class b K1 = None).
    { apply lookup_class_None. intros Hin. apply Hb1. eapply keep_entries_keys; eauto. }
    rewrite HK1. simpl.
    destruct (Z.eqb_spec b a); [congruence|].
    rewrite lookup_class_app.
    assert (HK2 : lookup_class b K2 = None).
    { apply lookup_class_None. intros Hin. apply Hb2. eapply keep_entries_keys; eauto. }
    rewrite HK2. simpl. now rewrite Z.eqb_refl.
  - pose proof (keep_entries_sorted to_remove cfg 0 Hsorted) as Hs.
    rewrite E1, map_app in Hs. simpl in Hs. rewrite map_app in Hs. simpl in Hs.
    apply StronglySorted_app_r in Hs.
    apply StronglySorted_inv in Hs as [_ Hlt].
    rewrite List.Forall_forall in Hlt. apply Hlt.
    apply in_or_app. right. now left.
Qed.

Lemma update_classes_order_preserving_witness :
  StronglySorted Z.lt ([0] ++ 1 :: [2] ++ 3 :: [4]) /\ ~ In 1 [0; 2] /\ ~ In 3 [0; 2] /\
  exists keep va vb,
    update_classes ([0] ++ 1 :: [2] ++ 3 :: [4]) [0; 2] = Ok keep /\
    lookup_class 1 keep = Some va /\ lookup_class 3 keep = Some vb /\ va < vb.
Proof.
  assert (Hs : StronglySorted Z.lt ([0] ++ 1 :: [2] ++ 3 :: [4])).
  { simpl. repeat constructor; lia. }
  assert (H1 : ~ In 1 [0; 2]) by (simpl; lia).
  assert (H3 : ~ In 3 [0; 2]) by (simpl; lia).
  split; [exact Hs | split; [exact H1 | split; [exact H3|]]].
  exact (update_classes_order_preserving [0] [2] [4] [0; 2] 1 3 Hs H1 H3).
Defined.

(** Claim C2, as stated for every non-empty config, fails: with the config
    [(2, 0, 1)] and nothing removed, [2] comes before [0] but
    [keep[2] = 2 > 0 = keep[0]]. *)
Lemma update_classes_order_preserving_cex :
  exists keep, update_classes [2; 0; 1] [] = Ok keep /\
    lookup_class 2 keep = Some 2 /\ lookup_class 0 keep = Some 0.
Proof. exists [(2, 2); (0, 0); (1, 1)]. repeat split. Qed.

(** Claim C8: [update_classes] raises ValueError exactly when the Class
    Config is empty (the constructor's default [()]); with a non-empty
    config it returns a remap; and [remove_class] with an empty config
    raises the same error before touching any file. *)
Theorem update_classes_requires_config (cfg to_remove : list Z) :
  (update_classes cfg to_remove = Raise ValueError <-> cfg = []) /\
  (cfg <> [] -> exists keep, update_classes cfg to_remove = Ok keep) /\
  (cfg = [] -> forall (files : list string) (fs : fs_t),
     remove_class cfg to_remove files fs = (Raise ValueError, fs)).
Proof.
  destruct cfg as [|c cfg]; simpl.
  - split; [tauto|]. split; [congruence|]. intros _ files fs. reflexivity.
  - split; [split; discriminate|]. split; [eauto | discriminate].
Qed.

(** ** Class removal *)

Lemma append_assoc_str (s1 s2 s3 : string) :
  (s1 ++ s2 ++ s3)%string = ((s1 ++ s2) ++ s3)%string.
Proof. induction s1 as [|c s1 IH]; [reflexivity | exact (f_equal (String c) IH)]. Qed.

Lemma py_str_int_small (z : Z) :
  Z.abs z < 10 ^ int_max_str_digits -> py_str_int z = Ok (str_Z z).
Proof. intros H. unfold py_str_int. apply Z.ltb_lt in H. now rewrite H. Qed.

Lemma lookup_class_In (c v : Z) (l : list (Z * Z)) :
  lookup_class c l = Some v -> In (c, v) l.
Proof.
  induction l as [|[k w] l IH]; simpl; [discriminate|].
  destruct (Z.eqb_spec c k); [intros [= <-]; subst; now left | intros H; right; auto].
Qed.

Lemma lookup_class_small (c v : Z) (keep : list (Z * Z)) :
  List.Forall (fun kv => Z.abs (snd kv) < 10 ^ int_max_str_digits) keep ->
  lookup_class c keep = Some v -> py_str_int v = Ok (str_Z v).
Proof.
  intros Hs Hl. apply py_str_int_small.
  rewrite List.Forall_forall in Hs. exact (Hs _ (lookup_class_In _ _ _ Hl)).
Qed.

Lemma remove_lines_spec (keep : list (Z * Z)) (to_remove : list Z)
    (lines : list string) (recs : list (Z * string)) :
  List.Forall (fun kv => Z.abs (snd kv) < 10 ^ int_max_str_digits) keep ->
  List.Forall2 (fun l r => record_of l = Ok r) lines recs ->
  match remove_lines keep to_remove lines with
  | (out, None) =>
      List.Forall (fun r => unmapped keep to_remove r = false) recs /\
      out = join (map (rewritten_line keep)
                    (List.filter (fun r => negb (mem_Z (fst r) to_remove)) recs))
  | (_, Some e) =>
      e = KeyError /\ List.Exists (fun r => unmapped keep to_remove r = true) recs
  end.
Proof.
  intros Hsmall.
  induction 1 as [|line [c wo] lines recs Hrec Hall IH]; simpl; [auto|].
  rewrite Hrec. unfold unmapped in *. cbn [fst snd List.filter].
  destruct (mem_Z c to_remove) eqn:Hm; simpl.
  - destruct (remove_lines keep to_remove lines) as [out [e|]].
    + destruct IH as [He Hex]. split; [exact He | now right].
    + destruct IH as [Hf Hout]. split; [|exact Hout].
      constructor; [simpl; now rewrite Hm | exact Hf].
  - destruct (lookup_class c keep) as [v|] eqn:Hl.
    + rewrite (lookup_class_small c v keep Hsmall Hl).
      destruct (remove_lines keep to_remove lines) as [out [e|]].
      * destruct IH as [He Hex]. split; [exact He | now right].
      * destruct IH as [Hf Hout]. split.
        { constructor; [simpl; now rewrite Hm, Hl | exact Hf]. }
        simpl. unfold rewritten_line at 1. simpl. rewrite Hl, Hout.
        rewrite <- append_assoc_str. reflexivity.
    + split; [reflexivity | left; simpl; now rewrite Hm, Hl].
Qed.

(** Claim C5 (as amended): on a UTF-8 file whose lines all parse as
    records ([line.split(' ', 1)] has two parts and [int] accepts the
    first, Unicode digits and spaces included), and with a remap whose
    values [str] can print (at most 4300 digits), [remove_class] raises
    KeyError exactly when some record's id is neither in [to_remove] nor a
    key of the remap; otherwise the file is rewritten with the records
    whose id is in [to_remove] dropped and every other record written as
    its remapped id, a space and the rest of its line unchanged. *)
Theorem remove_class_single_file (cfg to_remove : list Z) (p old : string) (fs : fs_t)
    (keep : list (Z * Z)) (recs : list (Z * string))
    (Hkeep : update_classes cfg to_remove = Ok keep)
    (Hsmall : List.Forall (fun kv => Z.abs (snd kv) < 10 ^ int_max_str_digits) keep)
    (Hold : fs !! p = Some old) (Hutf : utf8_valid old = true)
    (Hrecs : List.Forall2 (fun l r => record_of l = Ok r)
               (readlines (universal_newlines old)) recs) :
  match remove_class cfg to_remove [p] fs with
  | (Ok _, fs') =>
      List.Forall (fun r => unmapped keep to_remove r = false) recs /\
      fs' !! p = Some (join (map (rewritten_line keep)
                        (List.filter (fun r => negb (mem_Z (fst r) to_remove)) recs)))
  | (Raise e, _) =>
      e = KeyError /\ List.Exists (fun r => unmapped keep to_remove r = true) recs
  end.
Proof.
  unfold remove_class. rewrite Hkeep. simpl. rewrite Hold, Hutf. simpl.
  pose proof (remove_lines_spec keep to_remove _ _ Hsmall Hrecs) as H.
  destruct (remove_lines keep to_remove (readlines (universal_newlines old))) as [out [e|]].
  - exact H.
  - destruct H as [Hf Hout]. split; [exact Hf|].
    simpl. rewrite lookup_insert_eq. now rewrite Hout.
Qed.

Lemma remove_class_single_file_witness :
  let fs := <["a.txt" := text_of_lines ["2 0.5 0.5 0.1 0.1"; "1 0.4 0.3 0.3 0.2"]]> (∅ : fs_t) in
  update_classes [0; 1; 2] [1] = Ok [(0, 0); (2, 1)] /\
  List.Forall (fun kv => Z.abs (snd kv) < 10 ^ int_max_str_digits) [(0, 0); (2, 1)] /\
  fs !! "a.txt" = Some (text_of_lines ["2 0.5 0.5 0.1 0.1"; "1 0.4 0.3 0.3 0.2"]) /\
  utf8_valid (text_of_lines ["2 0.5 0.5 0.1 0.1"; "1 0.4 0.3 0.3 0.2"]) = true /\
  List.Forall2 (fun l r => record_of l = Ok r)
    (readlines (universal_newlines (text_of_lines ["2 0.5 0.5 0.1 0.1"; "1 0.4 0.3 0.3 0.2"])))
    [(2, nl_line "0.5 0.5 0.1 0.1"); (1, nl_line "0.4 0.3 0.3 0.2")] /\
  match remove_class [0; 1; 2] [1] ["a.txt"] fs with
  | (Ok _, fs') =>
      List.Forall (fun r => unmapped [(0, 0); (2, 1)] [1] r = false)
        [(2, nl_line "0.5 0.5 0.1 0.1"); (1, nl_line "0.4 0.3 0.3 0.2")] /\
      fs' !! "a.txt" = Some (join (map (rewritten_line [(0, 0); (2, 1)])
                        (List.filter (fun r => negb (mem_Z (fst r) [1]))
                           [(2, nl_line "0.5 0.5 0.1 0.1"); (1, nl_line "0.4 0.3 0.3 0.2")])))
  | (Raise e, _) =>
      e = KeyError /\ List.Exists (fun r => unmapped [(0, 0); (2, 1)] [1] r = true)
        [(2, nl_line "0.5 0.5 0.1 0.1"); (1, nl_line "0.4 0.3 0.3 0.2")]
  end.
Proof.
  intros fs.
  assert (H1 : update_classes [0; 1; 2] [1] = Ok [(0, 0); (2, 1)]) by reflexivity.
  assert (H2 : fs !! "a.txt" = Some (text_of_lines ["2 0.5 0.5 0.1 0.1"; "1 0.4 0.3 0.3 0.2"]))
    by reflexivity.
  assert (H3 : List.Forall2 (fun l r => record_of l = Ok r)
    (readlines (universal_newlines (text_of_lines ["2 0.5 0.5 0.1 0.1"; "1 0.4 0.3 0.3 0.2"])))
    [(2, nl_line "0.5 0.5 0.1 0.1"); (1, nl_line "0.4 0.3 0.3 0.2")]).
  { vm_compute (readlines _).
    repeat (apply List.Forall2_cons; [vm_compute; reflexivity|]). apply List.Forall2_nil. }
  assert (Hs : List.Forall (fun kv => Z.abs (snd kv) < 10 ^ int_max_str_digits) [(0, 0); (2, 1)]).
  { repeat (apply List.Forall_cons; [vm_compute; reflexivity|]). apply List.Forall_nil. }
  assert (Hu : utf8_valid (text_of_lines ["2 0.5 0.5 0.1 0.1"; "1 0.4 0.3 0.3 0.2"]) = true)
    by (vm_compute; reflexivity).
  split; [exact H1 | split; [exact Hs | split; [exact H2 | split; [exact Hu | split; [exact H3|]]]]].
  exact (remove_class_single_file [0; 1; 2] [1] "a.txt" _ fs _ _ H1 Hs H2 Hu H3).
Defined.

(** Claim C5, as stated, fails: with the config [(0, 1)], nothing to
    remove and a file holding the record [5 0.5 0.5 0.1 0.1], id 5 has no
    entry in the remap and [remove_class] raises KeyError instead of
    dropping the record. *)
Lemma remove_class_unmapped_cex :
  fst (remove_class [0; 1] [] ["a.txt"]
         (<["a.txt" := text_of_lines ["5 0.5 0.5 0.1 0.1"]]> (∅ : fs_t))) = Raise KeyError.
Proof. vm_compute. reflexivity. Qed.

(** ** Class counting *)

Lemma pykey_eqb_refl (k : pykey) : pykey_eqb k k = true.
Proof. destruct k; simpl; [apply Z.eqb_refl | apply String.eqb_refl]. Qed.

Lemma dict_get_set_eq (k : pykey) (v : Z) (d : list (pykey * Z)) :
  dict_get k (dict_set k v d) = Some v.
Proof.
  induction d as [|[k' v'] d IH]; simpl; [now rewrite pykey_eqb_refl|].
  destruct (pykey_eqb k k') eqn:E; simpl; rewrite E; auto.
Qed.

(** The tally of a token after its [n+1]-th occurrence, when it was not
    in the dict before the first: [n], not [n+1]. *)
Lemma bump_iter_unlisted (k : pykey) (cnt : list (pykey * Z)) (n : nat)
    (Hnew : dict_get k cnt = None) :
  dict_get k (Nat.iter (S n) (bump k) cnt) = Some (Z.of_nat n).
Proof.
  induction n as [|n IH].
  - simpl. unfold bump. rewrite Hnew, dict_get_set_eq, dict_get_set_eq. reflexivity.
  - change (Nat.iter (S (S n)) (bump k) cnt) with (bump k (Nat.iter (S n) (bump k) cnt)).
    set (c := Nat.iter (S n) (bump k) cnt) in *. clearbody c.
    unfold bump. rewrite IH, IH, dict_get_set_eq. f_equal. lia.
Qed.

(** Claim C3 (code defect): on the spec's scenario, files [a.txt] with
    lines ["0 .. "], ["1 .."] and [b.txt] with ["0 .."], and the int
    classes [(0, 1, 2)], [counter] raises TypeError whichever order the
    glob lists the files: the tokens are kept as [str] keys next to the int
    keys of [classes], and [sorted] compares an int with a str. *)
Theorem counter_spec_scenario_type_error :
  counter [KInt 0; KInt 1; KInt 2]
    [text_of_lines ["0 .. "; "1 .."]; text_of_lines ["0 .."]] = Raise TypeError /\
  counter [KInt 0; KInt 1; KInt 2]
    [text_of_lines ["0 .."]; text_of_lines ["0 .. "; "1 .."]] = Raise TypeError.
Proof. split; vm_compute; reflexivity. Qed.

(** Claim C4 (code defect): a token absent from [classes] that occurs once
    gets the tally 0, not 1: [counter((), one file "0 0.5 0.5 0.1 0.1\n")]
    returns [[('0', 0)]]. *)
Theorem counter_first_occurrence_counts_zero :
  counter [] [text_of_lines ["0 0.5 0.5 0.1 0.1"]] = Ok [(KStr "0", 0)].
Proof. vm_compute. reflexivity. Qed.

(** ** Path helpers *)

Lemma has_char_app (ch : ascii) (s1 s2 : string) :
  has_char ch (s1 ++ s2) = has_char ch s1 || has_char ch s2.
Proof. induction s1 as [|c s1 IH]; simpl; [reflexivity|]. rewrite IH. apply orb_assoc. Qed.

Lemma basename_no_slash (s : string) : has_char slash s = false -> basename s = s.
Proof.
  induction s as [|c s IH]; simpl; [reflexivity|].
  intros H. apply orb_false_iff in H as [Hc Hs]. now rewrite Hs, Hc.
Qed.

Lemma basename_after_slash (a b : string) :
  has_char slash b = false -> basename (a ++ String slash b) = b.
Proof.
  intros Hb. induction a as [|c a IH]; simpl.
  - now rewrite Hb.
  - rewrite has_char_app. simpl. rewrite orb_true_r. exact IH.
Qed.

Lemma basename_has_no_slash (s : string) : has_char slash (basename s) = false.
Proof.
  induction s as [|c s IH]; simpl; [reflexivity|].
  destruct (has_char slash s) eqn:Hs; [exact IH|].
  destruct (Ascii.eqb c slash) eqn:Hc; [exact Hs|]. simpl. now rewrite Hc, Hs.
Qed.

Lemma before_dot_no_dot (s : string) : has_char dot (before_dot s) = false.
Proof.
  induction s as [|c s IH]; simpl; [reflexivity|].
  destruct (Ascii.eqb c dot) eqn:Hc; simpl; [reflexivity|]. now rewrite Hc, IH.
Qed.

Lemma before_dot_keeps_no_slash (s : string) :
  has_char slash s = false -> has_char slash (before_dot s) = false.
Proof.
  induction s as [|c s IH]; simpl; [reflexivity|].
  intros H. apply orb_false_iff in H as [Hc Hs].
  destruct (Ascii.eqb c dot); simpl; [reflexivity|]. now rewrite Hc, IH.
Qed.

Lemma before_dot_app_dot (a b : string) :
  has_char dot a = false -> before_dot (a ++ String dot b) = a.
Proof.
  induction a as [|c a IH]; simpl.
  - intros _. reflexivity.
  - intros H. apply orb_false_iff in H as [Hc Ha]. rewrite Hc. f_equal. now apply IH.
Qed.

(** The annotation path built for an annotation path is itself: the name
    [get_filename] returns has no [/] and no [.]. *)
Lemma combine_path_get_filename_idem (txt_path img : string) :
  combine_path txt_path (get_filename (combine_path txt_path (get_filename img))) =
  combine_path txt_path (get_filename img).
Proof.
  assert (Hs : has_char slash (get_filename img) = false).
  { apply before_dot_keeps_no_slash, basename_has_no_slash. }
  assert (Hd : has_char dot (get_filename img) = false) by apply before_dot_no_dot.
  unfold combine_path at 2. unfold get_filename at 1.
  rewrite basename_after_slash.
  - rewrite before_dot_app_dot by exact Hd. reflexivity.
  - rewrite has_char_app, Hs. reflexivity.
Qed.

(** ** Backfilling missing annotation files *)

Lemma add_txt_loop_keeps (txt_path : string) (imgs : list string) :
  forall (fs : fs_t) (p c : string), fs !! p = Some c -> add_txt_loop txt_path imgs fs !! p = Some c.
Proof.
  induction imgs as [|img imgs IH]; intros fs p c H; cbn [add_txt_loop]; [exact H|].
  destruct (fs !! combine_path txt_path (get_filename img)) eqn:E; apply IH; [exact H|].
  rewrite lookup_insert_ne; [exact H|]. intros Heq. rewrite Heq in E. congruence.
Qed.

Lemma add_txt_loop_created (txt_path : string) (imgs : list string) :
  forall (fs : fs_t) (p c : string), add_txt_loop txt_path imgs fs !! p = Some c ->
  fs !! p = Some c \/
  (fs !! p = None /\ c = EmptyString /\
   exists img, In img imgs /\ p = combine_path txt_path (get_filename img)).
Proof.
  induction imgs as [|img imgs IH]; intros fs p c H; cbn [add_txt_loop] in H; [now left|].
  destruct (fs !! combine_path txt_path (get_filename img)) eqn:E.
  - destruct (IH _ _ _ H) as [H1 | (H1 & H2 & img' & Hin & ->)]; [now left|].
    right. repeat split; auto. exists img'. split; [now right | reflexivity].
  - destruct (IH _ _ _ H) as [H1 | (H1 & H2 & img' & Hin & ->)].
    + destruct (decide (p = combine_path txt_path (get_filename img))) as [->|Hne].
      * rewrite lookup_insert_eq in H1. injection H1 as <-.
        right. repeat split; auto. exists img. split; [now left | reflexivity].
      * rewrite lookup_insert_ne in H1 by congruence. now left.
    + destruct (decide (combine_path txt_path (get_filename img') =
                        combine_path txt_path (get_filename img))) as [Heq|Hne].
      * rewrite Heq, lookup_insert_eq in H1. discriminate.
      * rewrite lookup_insert_ne in H1 by congruence.
        right. repeat split; auto. exists img'. split; [now right | reflexivity].
Qed.

Lemma add_txt_loop_covers (txt_path : string) (imgs : list string) :
  forall (fs : fs_t) (img : string), In img imgs ->
  is_Some (add_txt_loop txt_path imgs fs !! combine_path txt_path (get_filename img)).
Proof.
  induction imgs as [|img0 imgs IH]; intros fs img Hin; [destruct Hin|].
  destruct Hin as [<-|Hin]; cbn [add_txt_loop].
  - destruct (fs !! combine_path txt_path (get_filename img0)) as [c|] eqn:E.
    + exists c. now apply add_txt_loop_keeps.
    + exists EmptyString. apply add_txt_loop_keeps. apply lookup_insert_eq.
  - destruct (fs !! combine_path txt_path (get_filename img0)); now apply IH.
Qed.

Lemma add_txt_loop_noop (txt_path : string) (imgs : list string) (fs : fs_t) :
  (forall img, In img imgs -> is_Some (fs !! combine_path txt_path (get_filename img))) ->
  add_txt_loop txt_path imgs fs = fs.
Proof.
  induction imgs as [|img imgs IH]; intros H; cbn [add_txt_loop]; [reflexivity|].
  destruct (H img (or_introl eq_refl)) as [c Hc]. rewrite Hc.
  apply IH. intros img' Hin. apply H. now right.
Qed.

Section AddTxt.

(** [get_files(self.images_path, filename)] as a function of the
    filesystem; creating a file that did not exist can add at most that
    file to its listing (when the images and the annotations share a
    directory). *)
Variable glob_images : fs_t -> list string.
Hypothesis glob_frame : forall (fs : fs_t) (q c p : string),
  fs !! q = None -> In p (glob_images (<[q := c]> fs)) -> In p (glob_images fs) \/ p = q.

Lemma add_txt_loop_glob (txt_path : string) (imgs : list string) :
  forall (fs : fs_t) (p : string), In p (glob_images (add_txt_loop txt_path imgs fs)) ->
  In p (glob_images fs) \/ exists img, In img imgs /\ p = combine_path txt_path (get_filename img).
Proof.
  induction imgs as [|img imgs IH]; intros fs p H; cbn [add_txt_loop] in H; [now left|].
  destruct (fs !! combine_path txt_path (get_filename img)) eqn:E.
  - destruct (IH _ _ H) as [H1 | (img' & Hin & ->)]; [now left|].
    right. exists img'. split; [now right | reflexivity].
  - destruct (IH _ _ H) as [H1 | (img' & Hin & ->)].
    + destruct (glob_frame _ _ _ _ E H1) as [H2 | ->]; [now left|].
      right. exists img. split; [now left | reflexivity].
    + right. exists img'. split; [now right | reflexivity].
Qed.

(** Claim C9: [add_txt] keeps the content of every existing file, creates
    only empty files, each at the annotation path of a listed image that
    had none, gives every listed image an annotation file, and a second
    run with the same arguments changes nothing. *)
Theorem add_txt_backfill_idempotent (txt_path : string) (fs : fs_t) :
  let fs1 := add_txt glob_images txt_path fs in
  (forall p c, fs !! p = Some c -> fs1 !! p = Some c) /\
  (forall p c, fs1 !! p = Some c ->
     fs !! p = Some c \/
     (fs !! p = None /\ c = EmptyString /\
      exists img, In img (glob_images fs) /\ p = combine_path txt_path (get_filename img))) /\
  (forall img, In img (glob_images fs) -> is_Some (fs1 !! combine_path txt_path (get_filename img))) /\
  add_txt glob_images txt_path fs1 = fs1.
Proof.
  intros fs1. unfold fs1, add_txt.
  split; [|split; [|split]].
  - intros p c. apply add_txt_loop_keeps.
  - intros p c. apply add_txt_loop_created.
  - intros img. apply add_txt_loop_covers.
  - apply add_txt_loop_noop. intros img2 Hin.
    destruct (add_txt_loop_glob _ _ _ _ Hin) as [H1 | (img & Himg & ->)].
    + now apply add_txt_loop_covers.
    + rewrite combine_path_get_filename_idem. now apply add_txt_loop_covers.
Qed.

End AddTxt.

Lemma glob_imgs_frame (fs : fs_t) (q c p : string) :
  fs !! q = None -> In p (glob_imgs (<[q := c]> fs)) -> In p (glob_imgs fs) \/ p = q.
Proof.
  unfold glob_imgs. intros Hq Hin.
  apply filter_In in Hin as [Hin Hpre].
  apply in_map_iff in Hin as ([k v] & Hk & Hkv). simpl in Hk. subst k.
  apply list_elem_of_In, elem_of_map_to_list in Hkv.
  destruct (decide (p = q)) as [->|Hne]; [now right|].
  left. rewrite lookup_insert_ne in Hkv by congruence.
  apply filter_In. split; [|exact Hpre].
  apply in_map_iff. exists (p, v). split; [reflexivity|].
  apply list_elem_of_In, elem_of_map_to_list. exact Hkv.
Qed.

Lemma add_txt_backfill_idempotent_witness :
  let fs0 := <["imgs/a.jpg" := "x"]> (<["imgs/b.png" := "y"]>
               (<["txt/b.txt" := text_of_lines ["0 0.5 0.5 0.1 0.1"]]> (∅ : fs_t))) in
  (forall (fs : fs_t) (q c p : string),
     fs !! q = None -> In p (glob_imgs (<[q := c]> fs)) -> In p (glob_imgs fs) \/ p = q) /\
  add_txt glob_imgs "txt" (add_txt glob_imgs "txt" fs0) = add_txt glob_imgs "txt" fs0.
Proof.
  intros fs0. split; [exact glob_imgs_frame|].
  exact (proj2 (proj2 (proj2 (add_txt_backfill_idempotent glob_imgs glob_imgs_frame "txt" fs0)))).
Defined.

(** ** Geometry codec: [bbox2yolo] in binary64 *)

Section Binary64.

(** Rounding a rational to an integer, ties to even. *)

Lemma rne_le (num den k : Z) : 0 < den -> num <= k * den -> rne num den <= k.
Proof.
  intros Hd Hk. unfold rne.
  pose proof (Z.div_mod num den ltac:(lia)) as Hdm.
  pose proof (Z.mod_pos_bound num den Hd) as Hb.
  set (q := num / den) in *. set (r := num mod den) in *.
  assert (q <= k) by nia.
  destruct (Z.ltb_spec (2 * r) den); [lia|].
  assert (q < k) by nia.
  destruct (Z.ltb_spec den (2 * r)); [lia|]. destruct (Z.even q); lia.
Qed.

Lemma rne_le_half (num den k : Z) :
  0 < den -> Z.even k = true -> 2 * num <= (2 * k + 1) * den -> rne num den <= k.
Proof.
  intros Hd Hk Hn. unfold rne.
  pose proof (Z.div_mod num den ltac:(lia)) as Hdm.
  pose proof (Z.mod_pos_bound num den Hd) as Hb.
  set (q := num / den) in *. set (r := num mod den) in *.
  assert (q <= k) by nia.
  destruct (Z.ltb_spec (2 * r) den); [lia|].
  destruct (Z.eq_dec q k) as [->|Hqk]; [|destruct (Z.ltb_spec den (2 * r)); [lia|]; destruct (Z.even q); lia].
  destruct (Z.ltb_spec den (2 * r)); [nia|]. now rewrite Hk.
Qed.

Lemma rne_err (num den : Z) : 0 < den -> 2 * rne num den * den <= 2 * num + den.
Proof.
  intros Hd. unfold rne.
  pose proof (Z.div_mod num den ltac:(lia)) as Hdm.
  pose proof (Z.mod_pos_bound num den Hd) as Hb.
  set (q := num / den) in *. set (r := num mod den) in *.
  destruct (Z.ltb_spec (2 * r) den); [nia|].
  destruct (Z.ltb_spec den (2 * r)); [nia|]. destruct (Z.even q); nia.
Qed.

Lemma rne_nonneg (num den : Z) : 0 <= num -> 0 < den -> 0 <= rne num den.
Proof.
  intros Hn Hd. unfold rne.
  pose proof (Z.div_pos num den Hn Hd).
  destruct (2 * (num mod den) <? den); [lia|].
  destruct (den <? 2 * (num mod den)); [lia|]. destruct (Z.even (num / den)); lia.
Qed.


Local Open Scope Q_scope.

(** Powers of two and conversions between [Z] and [Q]. *)

Lemma two_pow_pos (e : Z) : 0 < 2 ^ e.
Proof. apply Qpower_0_lt. lra. Qed.

Lemma two_pow_plus (e f : Z) : 2 ^ (e + f) == 2 ^ e * 2 ^ f.
Proof. apply Qpower_plus. lra. Qed.

Lemma inject_two_pow (n : Z) : (0 <= n)%Z -> inject_Z (2 ^ n) == 2 ^ n.
Proof. intros Hn. rewrite Zpower_Qpower by exact Hn. reflexivity. Qed.

Lemma two_pow_le (e f : Z) : (e <= f)%Z -> 2 ^ e <= 2 ^ f.
Proof. intros H. apply Qpower_le_compat_l; [exact H | lra]. Qed.

Lemma two_pow_le_inv (e f : Z) : 2 ^ e <= 2 ^ f -> (e <= f)%Z.
Proof. intros H. apply (Qpower_le_compat_l_inv 2); [exact H | lra]. Qed.

Lemma Zle_Q (x y : Z) : (x <= y)%Z -> inject_Z x <= inject_Z y.
Proof. now rewrite Zle_Qle. Qed.

Lemma Zlt_Q (x y : Z) : (x < y)%Z -> inject_Z x < inject_Z y.
Proof. now rewrite Zlt_Qlt. Qed.

Lemma Q_Zle (x y : Z) : inject_Z x <= inject_Z y -> (x <= y)%Z.
Proof. now rewrite Zle_Qle. Qed.

Lemma inject_Z_pos (z : Z) : (0 < z)%Z -> 0 < inject_Z z.
Proof. apply (Zlt_Q 0). Qed.

(** Rounding a positive rational to binary64: [round_pos]. *)

Lemma scaled_spec (a d e : Z) : (0 < d)%Z ->
  let '(num, den) := scaled a d e in
  (0 < den)%Z /\ inject_Z num * 2 ^ e * inject_Z d == inject_Z a * inject_Z den.
Proof.
  intros Hd. unfold scaled. destruct (Z.leb_spec 0 e).
  - split; [apply Z.mul_pos_pos; [lia | apply Z.pow_pos_nonneg; lia]|].
    rewrite inject_Z_mult, inject_two_pow by lia. ring.
  - split; [lia|].
    rewrite inject_Z_mult, inject_two_pow by lia.
    rewrite Qpower_opp.
    assert (~ 2 ^ e == 0) by (apply Qpower_not_0; lra).
    field. exact H0.
Qed.

Lemma flog2_spec (a d : Z) : (0 < a)%Z -> (0 < d)%Z ->
  2 ^ flog2 a d * inject_Z d <= inject_Z a < 2 ^ (flog2 a d + 1) * inject_Z d.
Proof.
  intros Ha Hd.
  pose proof (Z.log2_spec a Ha) as [Ha1 Ha2].
  pose proof (Z.log2_spec d Hd) as [Hd1 Hd2].
  pose proof (Z.log2_nonneg a). pose proof (Z.log2_nonneg d).
  rewrite <- Z.add_1_r in Ha2, Hd2.
  apply Zle_Q in Ha1. apply Zlt_Q in Ha2.
  apply Zle_Q in Hd1. apply Zlt_Q in Hd2.
  rewrite !inject_two_pow in Ha1, Ha2, Hd1, Hd2 by lia.
  rewrite !two_pow_plus in Ha2, Hd2.
  unfold flog2.
  set (E0 := (Z.log2 a - Z.log2 d)%Z).
  assert (HE : 2 ^ Z.log2 a == 2 ^ E0 * 2 ^ Z.log2 d).
  { rewrite <- two_pow_plus. unfold E0. now rewrite Z.sub_add. }
  pose proof (scaled_spec a d E0 Hd) as Hs.
  destruct (scaled a d E0) as [num den]. destruct Hs as [Hden Heq].
  pose proof (two_pow_pos E0) as Hp. pose proof (two_pow_pos (Z.log2 d)) as Hq.
  set (p := 2 ^ E0) in *. set (pd := 2 ^ Z.log2 d) in *. set (pa := 2 ^ Z.log2 a) in *.
  change (2 ^ 1) with 2 in Ha2, Hd2.
  set (A := inject_Z a) in *. set (Dq := inject_Z d) in *.
  assert (HA1 : p * Dq < 2 * A) by nra.
  assert (HA2 : A < 2 * p * Dq) by nra.
  apply inject_Z_pos in Hden.
  assert (HpD : 0 < p * Dq) by (apply Qmult_lt_0_compat; [exact Hp | apply inject_Z_pos; exact Hd]).
  assert (Heq' : inject_Z num * (p * Dq) == A * inject_Z den) by (rewrite <- Heq; ring).
  destruct (Z.ltb_spec num den) as [Hlt|Hge].
  - apply Zlt_Q in Hlt.
    replace (E0 - 1 + 1)%Z with E0 by lia. fold p.
    assert (H2 : p == 2 ^ (E0 - 1) * 2).
    { unfold p. rewrite <- (Z.sub_add 1 E0) at 1. rewrite two_pow_plus. reflexivity. }
    assert (HAp : A < p * Dq).
    { apply (Qmult_lt_r _ _ (inject_Z den)); [exact Hden|].
      rewrite <- Heq'. apply (Qmult_lt_l _ _ (p * Dq)) in Hlt; [|exact HpD]. lra. }
    split; [|exact HAp].
    rewrite H2 in HA1. lra.
  - apply Zle_Q in Hge.
    assert (H2 : 2 ^ (E0 + 1) == p * 2) by (unfold p; rewrite two_pow_plus; reflexivity).
    rewrite H2. fold p.
    assert (HAp : p * Dq <= A).
    { apply (Qmult_le_r _ _ (inject_Z den)); [exact Hden|].
      rewrite <- Heq'. apply (Qmult_le_l _ _ (p * Dq)) in Hge; [|exact HpD]. lra. }
    split; [exact HAp | lra].
Qed.

Lemma scaled_nonneg (a d e : Z) : (0 <= a)%Z -> (0 <= fst (scaled a d e))%Z.
Proof.
  intros Ha. unfold scaled. destruct (0 <=? e)%Z; simpl; [lia|].
  apply Z.mul_nonneg_nonneg; [lia | apply Z.pow_nonneg; lia].
Qed.

Lemma round_pos_spec (a d : Z) : (0 < a)%Z -> (0 < d)%Z ->
  let e := fexp64 (flog2 a d) in
  inject_Z (fst (round_pos a d)) * 2 ^ snd (round_pos a d)
    == inject_Z (rne (fst (scaled a d e)) (snd (scaled a d e))) * 2 ^ e /\
  (0 <= fst (round_pos a d))%Z /\ (snd (round_pos a d) <= e + 1)%Z.
Proof.
  intros Ha Hd e. unfold round_pos. fold e.
  pose proof (scaled_nonneg a d e ltac:(lia)) as Hn.
  pose proof (scaled_spec a d e Hd) as Hs.
  destruct (scaled a d e) as [num den]. simpl in Hn |- *. destruct Hs as [Hden _].
  pose proof (rne_nonneg num den Hn Hden).
  destruct (Z.eqb_spec (rne num den) (2 ^ 53)) as [Hq|Hq]; simpl.
  - rewrite Hq, two_pow_plus. split; [|lia].
    change (inject_Z (2 ^ 52) * (2 ^ e * 2 ^ 1) == inject_Z (2 ^ 53) * 2 ^ e). 
    rewrite !inject_two_pow by lia. change (2 ^ 1) with 2.
    replace 53%Z with (52 + 1)%Z by reflexivity. rewrite two_pow_plus. change (2 ^ 1) with 2. ring.
  - split; [reflexivity | lia].
Qed.

Lemma round_pos_le_grid (a d k f : Z) : (0 < a)%Z -> (0 < d)%Z ->
  (fexp64 (flog2 a d) <= f)%Z -> inject_Z a <= inject_Z k * 2 ^ f * inject_Z d ->
  inject_Z (fst (round_pos a d)) * 2 ^ snd (round_pos a d) <= inject_Z k * 2 ^ f.
Proof.
  intros Ha Hd Hf Hk.
  destruct (round_pos_spec a d Ha Hd) as [Hv _]. rewrite Hv.
  set (e := fexp64 (flog2 a d)) in *.
  pose proof (scaled_spec a d e Hd) as Hs.
  destruct (scaled a d e) as [num den]. simpl. destruct Hs as [Hden Heq].
  pose proof (inject_Z_pos d Hd) as HD. pose proof (inject_Z_pos den Hden) as HDen.
  pose proof (two_pow_pos e) as He.
  assert (Hfe : 2 ^ f == 2 ^ (f - e) * 2 ^ e).
  { rewrite <- two_pow_plus. now rewrite Z.sub_add. }
  assert (HK : inject_Z (k * 2 ^ (f - e)) == inject_Z k * 2 ^ (f - e)).
  { rewrite inject_Z_mult, inject_two_pow by lia. reflexivity. }
  assert (Hle : (num <= k * 2 ^ (f - e) * den)%Z).
  { apply Q_Zle. rewrite inject_Z_mult, HK.
    apply (Qmult_le_r _ _ (2 ^ e * inject_Z d)); [now apply Qmult_lt_0_compat|].
    setoid_replace (inject_Z num * (2 ^ e * inject_Z d)) with (inject_Z a * inject_Z den) using relation Qeq
      by (rewrite <- Heq; ring).
    rewrite Hfe in Hk.
    apply (Qmult_le_r _ _ (inject_Z den)) in Hk; [|exact HDen].
    setoid_replace (inject_Z k * 2 ^ (f - e) * inject_Z den * (2 ^ e * inject_Z d))
      with (inject_Z k * (2 ^ (f - e) * 2 ^ e) * inject_Z d * inject_Z den) using relation Qeq by ring.
    exact Hk. }
  pose proof (rne_le num den _ Hden Hle) as Hr.
  apply Zle_Q in Hr. rewrite HK in Hr.
  rewrite Hfe. apply (Qmult_le_r _ _ (2 ^ e)) in Hr; [|exact He].
  setoid_replace (inject_Z k * (2 ^ (f - e) * 2 ^ e)) with (inject_Z k * 2 ^ (f - e) * 2 ^ e) using relation Qeq by ring.
  exact Hr.
Qed.

Lemma round_pos_err (a d : Z) : (0 < a)%Z -> (0 < d)%Z ->
  2 * (inject_Z (fst (round_pos a d)) * 2 ^ snd (round_pos a d)) * inject_Z d
    <= 2 * inject_Z a + 2 ^ fexp64 (flog2 a d) * inject_Z d.
Proof.
  intros Ha Hd.
  destruct (round_pos_spec a d Ha Hd) as [Hv _]. rewrite Hv.
  set (e := fexp64 (flog2 a d)) in *.
  pose proof (scaled_spec a d e Hd) as Hs.
  destruct (scaled a d e) as [num den]. simpl. destruct Hs as [Hden Heq].
  pose proof (inject_Z_pos den Hden) as HDen.
  pose proof (two_pow_pos e) as He. pose proof (inject_Z_pos d Hd) as HD.
  pose proof (rne_err num den Hden) as Hr.
  apply Zle_Q in Hr. rewrite !inject_Z_plus, !inject_Z_mult in Hr. change (inject_Z 2) with 2 in Hr.
  apply (Qmult_le_r _ _ (inject_Z den)); [exact HDen|].
  apply (Qmult_le_r _ _ (2 ^ e * inject_Z d)) in Hr; [|now apply Qmult_lt_0_compat].
  setoid_replace ((2 * inject_Z a + 2 ^ e * inject_Z d) * inject_Z den)
    with ((2 * inject_Z num + inject_Z den) * (2 ^ e * inject_Z d)) using relation Qeq.
  - setoid_replace (2 * (inject_Z (rne num den) * 2 ^ e) * inject_Z d * inject_Z den)
      with (2 * inject_Z (rne num den) * inject_Z den * (2 ^ e * inject_Z d)) using relation Qeq by ring.
    exact Hr.
  - lra.
Qed.

Lemma flog2_le (a d n : Z) : (0 < a)%Z -> (0 < d)%Z ->
  inject_Z a <= 2 ^ n * inject_Z d -> (flog2 a d <= n)%Z.
Proof.
  intros Ha Hd Hn. apply two_pow_le_inv.
  pose proof (flog2_spec a d Ha Hd) as [H1 _].
  apply (Qmult_le_r _ _ (inject_Z d)); [now apply inject_Z_pos | lra].
Qed.

Lemma round_pos_rel (a d : Z) : (0 < a)%Z -> (0 < d)%Z -> (-1022 <= flog2 a d)%Z ->
  inject_Z (fst (round_pos a d)) * 2 ^ snd (round_pos a d) * inject_Z d
    <= inject_Z a * (1 + 2 ^ (-53)).
Proof.
  intros Ha Hd HE.
  pose proof (round_pos_err a d Ha Hd) as Herr.
  pose proof (flog2_spec a d Ha Hd) as [H1 _].
  set (E := flog2 a d) in *.
  assert (He : fexp64 E = (E - 52)%Z) by (unfold fexp64; lia).
  rewrite He in Herr.
  assert (H52 : 2 ^ E == 2 ^ (E - 52) * 2 ^ 52).
  { rewrite <- two_pow_plus. now rewrite Z.sub_add. }
  rewrite H52 in H1.
  change (2 ^ 52) with (4503599627370496 # 1) in H1.
  pose proof (two_pow_pos (E - 52)). pose proof (inject_Z_pos d Hd).
  set (p := 2 ^ (E - 52)) in *.
  assert (Hp : p * inject_Z d <= inject_Z a * (1 # 4503599627370496)) by lra.
  change (2 ^ (-53)) with (1 # 9007199254740992). lra.
Qed.

Lemma round_pos_le_one (a d : Z) : (0 < a)%Z -> (0 < d)%Z ->
  inject_Z a <= inject_Z d * (1 + 2 ^ (-53)) ->
  inject_Z (fst (round_pos a d)) * 2 ^ snd (round_pos a d) <= 1.
Proof.
  intros Ha Hd Hb.
  change (2 ^ (-53)) with (1 # 9007199254740992) in Hb.
  pose proof (flog2_spec a d Ha Hd) as [H1 H2].
  pose proof (inject_Z_pos d Hd) as HD.
  assert (HE : (flog2 a d < 1)%Z).
  { apply (Qpower_lt_compat_l_inv 2); [|lra].
    apply (Qmult_lt_r _ _ (inject_Z d)); [exact HD|]. change (2 ^ 1) with 2. lra. }
  destruct (Z.eq_dec (flog2 a d) 0%Z) as [H0|H0].
  - destruct (round_pos_spec a d Ha Hd) as [Hv _]. rewrite Hv.
    rewrite H0. change (fexp64 0) with (-52)%Z.
    change (scaled a d (-52)) with ((a * 2 ^ 52)%Z, d). simpl fst; simpl snd.
    assert (Hr : (rne (a * 2 ^ 52) d <= 2 ^ 52)%Z).
    { apply rne_le_half; [exact Hd | reflexivity|].
      apply Q_Zle. rewrite !inject_Z_mult, !inject_Z_plus, !inject_Z_mult.
      change (inject_Z (2 ^ 52)) with (4503599627370496 # 1).
      change (inject_Z 2) with 2. change (inject_Z 1) with 1. lra. }
    apply Zle_Q in Hr. change (inject_Z (2 ^ 52)) with (4503599627370496 # 1) in Hr.
    change (2 ^ (-52)) with (1 # 4503599627370496). lra.
  - apply (round_pos_le_grid a d 1 0 Ha Hd).
    + unfold fexp64. lia.
    + assert (2 ^ (flog2 a d + 1) <= 2 ^ 0) by (apply two_pow_le; lia).
      change (inject_Z 1 * 2 ^ 0) with 1.
      apply (Qmult_le_r _ _ (inject_Z d)) in H; [|exact HD]. lra.
Qed.

Lemma round_pos_le_int (a d B : Z) : (0 < a)%Z -> (0 < d)%Z -> (B <= 2 ^ 53)%Z ->
  (a <= B * d)%Z -> inject_Z (fst (round_pos a d)) * 2 ^ snd (round_pos a d) <= inject_Z B.
Proof.
  intros Ha Hd HB Hab.
  pose proof (flog2_spec a d Ha Hd) as [H1 H2].
  pose proof (inject_Z_pos d Hd) as HD.
  apply Zle_Q in Hab, HB. rewrite inject_Z_mult in Hab.
  rewrite inject_two_pow in HB by lia.
  assert (HE : (flog2 a d <= 53)%Z).
  { apply flog2_le; [exact Ha | exact Hd | nra]. }
  destruct (Z.eq_dec (flog2 a d) 53%Z) as [H0|H0].
  - rewrite H0 in H1.
    assert (HB' : inject_Z B == 2 ^ 53).
    { apply Qle_antisym; [exact HB|].
      apply (Qmult_le_r _ _ (inject_Z d)); [exact HD | lra]. }
    rewrite HB'.
    setoid_replace (2 ^ 53) with (inject_Z (2 ^ 52) * 2 ^ 1) using relation Qeq by reflexivity.
    apply (round_pos_le_grid a d _ 1 Ha Hd).
    + rewrite H0. reflexivity.
    + rewrite HB' in Hab. change (inject_Z (2 ^ 52) * 2 ^ 1) with (2 ^ 53). lra.
  - setoid_replace (inject_Z B) with (inject_Z B * 2 ^ 0) using relation Qeq by ring.
    apply (round_pos_le_grid a d B 0 Ha Hd).
    + unfold fexp64. lia.
    + change (2 ^ 0) with 1. lra.
Qed.

(** Float operations on non-negative operands. *)

Lemma qval_finite_of (q e : Z) : (0 <= q)%Z ->
  is_finite64 (finite_of false q e) = true /\ qval (finite_of false q e) == inject_Z q * 2 ^ e.
Proof.
  intros Hq. destruct q as [|m|m]; simpl; [split; [reflexivity | ring] | | lia].
  split; [reflexivity | ring].
Qed.

Lemma round_ratio_nonneg (n d : Z) : (0 <= n)%Z -> (0 < d)%Z -> (n <= 2 ^ 53 * d)%Z ->
  exists q e, round_ratio n d = Ok (finite_of false q e) /\ (0 <= q)%Z /\
    ((n = 0%Z /\ q = 0%Z) \/ ((0 < n)%Z /\ round_pos n d = (q, e))).
Proof.
  intros Hn Hd Hnd. unfold round_ratio.
  assert (Hn' : (n <? 0)%Z = false) by (apply Z.ltb_ge; lia).
  assert (Hd' : (d <? 0)%Z = false) by (apply Z.ltb_ge; lia).
  rewrite Hn', Hd'. simpl xorb.
  destruct (Z.eqb_spec n 0) as [->|Hn0].
  - exists 0%Z, 0%Z. split; [reflexivity | split; [lia | left; auto]].
  - rewrite (Z.abs_eq n), (Z.abs_eq d) by lia.
    assert (HE : (flog2 n d <= 53)%Z).
    { apply flog2_le; [lia | exact Hd|].
      apply Zle_Q in Hnd. rewrite inject_Z_mult, inject_two_pow in Hnd by lia. exact Hnd. }
    destruct (round_pos_spec n d ltac:(lia) Hd) as (_ & Hq & He).
    destruct (round_pos n d) as [q e]. simpl in Hq, He.
    assert (He' : (e <= 971)%Z) by (unfold fexp64 in He; lia).
    apply Z.ltb_ge in He'. rewrite He'.
    exists q, e. split; [reflexivity | split; [exact Hq | right; split; [lia | reflexivity]]].
Qed.

Lemma pow2_split (m : positive) (t : Z) :
  inject_Z (Z.pos m * 2 ^ Z.max 0 t) == inject_Z (Z.pos m) * 2 ^ t * inject_Z (2 ^ Z.max 0 (- t)).
Proof.
  rewrite inject_Z_mult, !inject_two_pow by lia.
  destruct (Z.leb_spec 0 t).
  - rewrite Z.max_r, Z.max_l by lia. change (2 ^ 0) with 1. ring.
  - rewrite Z.max_l, Z.max_r by lia.
    assert (H1 : 2 ^ t * 2 ^ (- t) == 1).
    { rewrite <- two_pow_plus. now rewrite Z.add_opp_diag_r. }
    change (2 ^ 0) with 1. rewrite <- Qmult_assoc, H1. ring.
Qed.

Lemma fmul_in_unit (qx ex qy ey : Z) (W : Q) : (0 <= qx)%Z -> (0 <= qy)%Z ->
  inject_Z qx * 2 ^ ex <= W -> W * (inject_Z qy * 2 ^ ey) <= 1 + 2 ^ (-53) ->
  in_unit (fmul (finite_of false qx ex) (finite_of false qy ey)).
Proof.
  intros Hqx Hqy Hx Hy. unfold in_unit.
  destruct qx as [|mx|mx]; [ | | lia]; destruct qy as [|my|my]; try lia; simpl;
    try (split; [reflexivity | lra]).
  set (t := (ex + ey)%Z).
  set (a := (Z.pos (mx * my) * 2 ^ Z.max 0 t)%Z). set (d := (2 ^ Z.max 0 (- t))%Z).
  assert (Ha : (0 < a)%Z) by (unfold a; apply Z.mul_pos_pos; [lia | apply Z.pow_pos_nonneg; lia]).
  assert (Hd : (0 < d)%Z) by (unfold d; apply Z.pow_pos_nonneg; lia).
  assert (Hval : inject_Z a == inject_Z (Z.pos mx) * 2 ^ ex * (inject_Z (Z.pos my) * 2 ^ ey) * inject_Z d).
  { unfold a, d. rewrite pow2_split. unfold t. rewrite two_pow_plus.
    rewrite Pos2Z.inj_mul, inject_Z_mult. ring. }
  pose proof (two_pow_pos ex). pose proof (two_pow_pos ey).
  pose proof (inject_Z_pos (Z.pos mx) ltac:(lia)). pose proof (inject_Z_pos (Z.pos my) ltac:(lia)).
  pose proof (inject_Z_pos d Hd) as HD.
  assert (Hprod : inject_Z (Z.pos mx) * 2 ^ ex * (inject_Z (Z.pos my) * 2 ^ ey) <= 1 + 2 ^ (-53)).
  { apply (Qle_trans _ (W * (inject_Z (Z.pos my) * 2 ^ ey))); [|exact Hy].
    apply Qmult_le_compat_r; [exact Hx|]. apply Qlt_le_weak, Qmult_lt_0_compat; assumption. }
  assert (Hb : inject_Z a <= inject_Z d * (1 + 2 ^ (-53))).
  { rewrite Hval. change (2 ^ (-53)) with (1 # 9007199254740992) in Hprod |- *.
    set (P := inject_Z (Z.pos mx) * 2 ^ ex * (inject_Z (Z.pos my) * 2 ^ ey)) in *. nra. }
  pose proof (round_pos_le_one a d Ha Hd Hb) as Hle.
  assert (HE : (flog2 a d <= 1)%Z).
  { apply flog2_le; [exact Ha | exact Hd|]. change (2 ^ (-53)) with (1 # 9007199254740992) in Hb.
    change (2 ^ 1) with 2. lra. }
  destruct (round_pos_spec a d Ha Hd) as (_ & Hq & He).
  destruct (round_pos a d) as [q e]. simpl in Hq, He, Hle.
  assert (He' : (e <= 971)%Z) by (unfold fexp64 in He; lia).
  apply Z.ltb_ge in He'. rewrite He'.
  destruct (qval_finite_of q e Hq) as [Hf Hv]. rewrite Hf, Hv.
  split; [reflexivity|]. split; [|exact Hle].
  apply Qmult_le_0_compat; [apply (Zle_Q 0); exact Hq | apply Qlt_le_weak, two_pow_pos].
Qed.

Lemma bbox2yolo_axis (W lo hi : Z) : (0 < W <= 2 ^ 53)%Z -> (0 <= lo <= hi)%Z -> (hi <= W)%Z ->
  exists dw c fw, true_div 1 W = Ok dw /\ true_div (lo + hi) 2 = Ok c /\
    round_ratio (hi - lo) 1 = Ok fw /\ in_unit (fmul c dw) /\ in_unit (fmul fw dw).
Proof.
  intros HW Hlo Hhi.
  destruct (round_ratio_nonneg 1 W ltac:(lia) ltac:(lia) ltac:(lia)) as (q1 & e1 & H1 & Hq1 & [[? _]|[_ Hr1]]);
    [discriminate|].
  destruct (round_ratio_nonneg (lo + hi) 2 ltac:(lia) ltac:(lia) ltac:(lia)) as (q2 & e2 & H2 & Hq2 & Hc2).
  destruct (round_ratio_nonneg (hi - lo) 1 ltac:(lia) ltac:(lia) ltac:(lia)) as (q3 & e3 & H3 & Hq3 & Hc3).
  exists (finite_of false q1 e1), (finite_of false q2 e2), (finite_of false q3 e3).
  unfold true_div. rewrite (proj2 (Z.eqb_neq W 0)) by lia. rewrite (proj2 (Z.eqb_neq 2 0)) by lia.
  split; [exact H1|]. split; [exact H2|]. split; [exact H3|].
  assert (HWpos : 0 <= inject_Z W) by (apply (Zle_Q 0); lia).
  (* [W * dw <= 1 + 2^-53] *)
  assert (Hdw : inject_Z W * (inject_Z q1 * 2 ^ e1) <= 1 + 2 ^ (-53)).
  { assert (HE : (-1022 <= flog2 1 W)%Z).
    { pose proof (flog2_spec 1 W ltac:(lia) ltac:(lia)) as [_ Hs].
      assert (HWq : inject_Z W <= 2 ^ 53) by (rewrite <- inject_two_pow by lia; apply Zle_Q; lia).
      assert (Hlt : 2 ^ 0 < 2 ^ (flog2 1 W + 1 + 53)).
      { rewrite (two_pow_plus (flog2 1 W + 1) 53). change (2 ^ 0) with 1. change (inject_Z 1) with 1 in Hs.
        pose proof (two_pow_pos (flog2 1 W + 1)). nra. }
      apply (Qpower_lt_compat_l_inv 2) in Hlt; [lia | lra]. }
    pose proof (round_pos_rel 1 W ltac:(lia) ltac:(lia) HE) as Hrel.
    rewrite Hr1 in Hrel. simpl fst in Hrel; simpl snd in Hrel.
    change (inject_Z 1) with 1 in Hrel. lra. }
  (* [c <= W] and [fw <= W] *)
  assert (Hc : inject_Z q2 * 2 ^ e2 <= inject_Z W).
  { destruct Hc2 as [[_ ->]|[Hpos Hr2]]; [change (inject_Z 0) with 0; lra|].
    pose proof (round_pos_le_int (lo + hi) 2 W Hpos ltac:(lia) ltac:(lia) ltac:(lia)) as Hb.
    now rewrite Hr2 in Hb. }
  assert (Hf : inject_Z q3 * 2 ^ e3 <= inject_Z W).
  { destruct Hc3 as [[_ ->]|[Hpos Hr3]]; [change (inject_Z 0) with 0; lra|].
    pose proof (round_pos_le_int (hi - lo) 1 W Hpos ltac:(lia) ltac:(lia) ltac:(lia)) as Hb.
    now rewrite Hr3 in Hb. }
  split; eapply fmul_in_unit; eassumption.
Qed.

(** Claim C6 (as amended): for [0 < width, height <= 2^53] and a box
    with [0 <= xmin <= xmax <= width], [0 <= ymin <= ymax <= height],
    [bbox2yolo] raises nothing and returns four finite binary64 values,
    each in [[0, 1]]. They are the roundings of Python's float
    operations, not the exact quotients; on the spec's scenario,
    [bbox2yolo(100, 100, 10, 10, 50, 50)] is [(0.3, 0.3, 0.4, 0.4)]. *)
Theorem bbox2yolo_unit_box (width height xmin ymin xmax ymax : Z)
    (Hw : (0 < width <= 2 ^ 53)%Z) (Hh : (0 < height <= 2 ^ 53)%Z)
    (Hx : (0 <= xmin <= xmax)%Z) (Hxw : (xmax <= width)%Z)
    (Hy : (0 <= ymin <= ymax)%Z) (Hyh : (ymax <= height)%Z) :
  (exists x y w h, bbox2yolo width height xmin ymin xmax ymax = Ok (x, y, w, h) /\
     in_unit x /\ in_unit y /\ in_unit w /\ in_unit h) /\
  bbox2yolo 100 100 10 10 50 50 = Ok (Prim2SF 0.3, Prim2SF 0.3, Prim2SF 0.4, Prim2SF 0.4)%float.
Proof.
  split; [|vm_compute; reflexivity].
  destruct (bbox2yolo_axis width xmin xmax Hw Hx Hxw) as (dw & cx & fw & Hdw & Hcx & Hfw & Ux & Uw).
  destruct (bbox2yolo_axis height ymin ymax Hh Hy Hyh) as (dh & cy & fh & Hdh & Hcy & Hfh & Uy & Uh).
  exists (fmul cx dw), (fmul cy dh), (fmul fw dw), (fmul fh dh).
  unfold bbox2yolo. rewrite Hdw, Hdh. simpl. rewrite Hcx. simpl. rewrite Hcy. simpl.
  rewrite Hfw. simpl. rewrite Hfh. simpl. auto.
Qed.

Lemma bbox2yolo_unit_box_witness :
  (0 < 100 <= 2 ^ 53)%Z /\ (0 <= 10 <= 50)%Z /\ (50 <= 100)%Z /\
  (exists x y w h, bbox2yolo 100 100 10 10 50 50 = Ok (x, y, w, h) /\
     in_unit x /\ in_unit y /\ in_unit w /\ in_unit h) /\
  bbox2yolo 100 100 10 10 50 50 = Ok (Prim2SF 0.3, Prim2SF 0.3, Prim2SF 0.4, Prim2SF 0.4)%float.
Proof.
  assert (H1 : (0 < 100 <= 2 ^ 53)%Z) by lia.
  assert (H2 : (0 <= 10 <= 50)%Z) by lia.
  assert (H3 : (50 <= 100)%Z) by lia.
  split; [exact H1 | split; [exact H2 | split; [exact H3|]]].
  exact (bbox2yolo_unit_box 100 100 10 10 50 50 H1 H1 H2 H3 H2 H3).
Defined.

(** Claim C6, as stated, fails: [bbox2yolo] multiplies by the rounded
    reciprocal [1 / width], so its outputs are not the exact quotients.
    For a 49-wide image and the full-width box, [w] is [1 - 2^-53]
    (Python's [0.9999999999999999]), not [(49 - 0) / 49 = 1]. *)
Lemma bbox2yolo_exact_quotient_cex :
  exists x y w h, bbox2yolo 49 49 0 0 49 49 = Ok (x, y, w, h) /\
    qval w == 1 - 2 ^ (-53) /\ ~ qval w == inject_Z (49 - 0) / inject_Z 49.
Proof.
  do 4 eexists. split; [vm_compute; reflexivity|]. vm_compute. split; [reflexivity | discriminate].
Qed.

End Binary64.

(** ** JSON import *)

(** Claim C10: when [json2txt] reaches a json file [j] that [json.load]
    cannot parse (its text is not UTF-8, or it is UTF-8 but not a JSON
    document), the txt file named after [j] was already truncated by
    [open(..., 'w+')]: the import stops with the error of [json.load]
    (UnicodeDecodeError or JSONDecodeError) and that txt file is left
    empty, whatever it held before. The files before [j] were imported
    without an exception. *)
Theorem json2txt_parse_failure_empties_txt (json_load : string -> option json_doc)
    (float_repr : float64 -> string) (map_config : list (Z * Z)) (txt_path : string)
    (pre post : list string) (j : string) (fs fs_pre : fs_t)
    (Hpre : json2txt json_load float_repr map_config txt_path pre fs = (Ok tt, fs_pre))
    (Hj : is_Some (fs_pre !! j))
    (Hbad : forall content,
       <[combine_path txt_path (get_filename j) := EmptyString]> fs_pre !! j = Some content ->
       utf8_valid content = true -> json_load content = None) :
  let txt_file := combine_path txt_path (get_filename j) in
  exists e fs',
    json2txt json_load float_repr map_config txt_path (pre ++ j :: post) fs = (Raise e, fs') /\
    (e = JSONDecodeError \/ e = UnicodeDecodeError) /\
    fs' !! txt_file = Some EmptyString.
Proof.
  intros txt_file.
  assert (Hstep : forall fs0, json2txt json_load float_repr map_config txt_path pre fs = (Ok tt, fs0) ->
            json2txt json_load float_repr map_config txt_path (pre ++ j :: post) fs =
            json2txt json_load float_repr map_config txt_path (j :: post) fs0).
  { clear. revert fs. induction pre as [|j0 pre IH]; intros fs fs0 H; simpl in *.
    - now injection H as <-.
    - destruct (json2txt_file json_load float_repr map_config txt_path j0 fs) as [[u|e] fs1].
      + now apply IH.
      + discriminate. }
  rewrite (Hstep fs_pre Hpre). simpl. unfold json2txt_file.
  destruct Hj as [old Hold]. rewrite Hold. fold txt_file.
  destruct (<[txt_file := EmptyString]> fs_pre !! j) as [content|] eqn:Hc.
  - destruct (utf8_valid content) eqn:Hu; simpl.
    + rewrite (Hbad content Hc Hu). exists JSONDecodeError, (<[txt_file := EmptyString]> fs_pre).
      split; [reflexivity | split; [now left | apply lookup_insert_eq]].
    + exists UnicodeDecodeError, (<[txt_file := EmptyString]> fs_pre).
      split; [reflexivity | split; [now right | apply lookup_insert_eq]].
  - exfalso.
    destruct (decide (txt_file = j)) as [->|Hne].
    + rewrite lookup_insert_eq in Hc. discriminate.
    + rewrite lookup_insert_ne in Hc by congruence. congruence.
Qed.

Lemma json2txt_parse_failure_empties_txt_witness :
  let fs := <["ann/a.json" := "{"]> (<["txt/a.txt" := text_of_lines ["0 0.5 0.5 0.8 0.8"]]> (∅ : fs_t)) in
  json2txt (fun _ => None) (fun _ => "0") [(5, 0)] "txt" [] fs = (Ok tt, fs) /\
  is_Some (fs !! "ann/a.json") /\
  (forall content,
     <[combine_path "txt" (get_filename "ann/a.json") := EmptyString]> fs !! "ann/a.json" = Some content ->
     utf8_valid content = true -> (fun _ : string => @None json_doc) content = None) /\
  exists e fs',
    json2txt (fun _ => None) (fun _ => "0") [(5, 0)] "txt" ([] ++ "ann/a.json" :: []) fs = (Raise e, fs') /\
    (e = JSONDecodeError \/ e = UnicodeDecodeError) /\
    fs' !! combine_path "txt" (get_filename "ann/a.json") = Some EmptyString.
Proof.
  intros fs.
  assert (H1 : json2txt (fun _ => None) (fun _ => "0") [(5, 0)] "txt" [] fs = (Ok tt, fs))
    by reflexivity.
  assert (H2 : is_Some (fs !! "ann/a.json")) by (eexists; reflexivity).
  assert (H3 : forall content,
     <[combine_path "txt" (get_filename "ann/a.json") := EmptyString]> fs !! "ann/a.json" = Some content ->
     utf8_valid content = true -> (fun _ : string => @None json_doc) content = None) by reflexivity.
  split; [exact H1 | split; [exact H2 | split; [exact H3|]]].
  exact (json2txt_parse_failure_empties_txt (fun _ => None) (fun _ => "0") [(5, 0)] "txt"
           [] [] "ann/a.json" fs fs H1 H2 H3).
Defined.

(** ** Further properties of the code *)

Lemma str_app_cons (c : ascii) (s t : string) : (String c s ++ t)%string = String c (s ++ t)%string.
Proof. reflexivity. Qed.

Lemma str_app_nil_l (t : string) : (EmptyString ++ t)%string = t.
Proof. reflexivity. Qed.

Lemma str_app_nil_r (s : string) : (s ++ EmptyString)%string = s.
Proof. induction s as [|c s IH]; [reflexivity|]. rewrite str_app_cons, IH. reflexivity. Qed.

Lemma universal_newlines_app (s t : string) :
  has_char cr s = false -> universal_newlines (s ++ t) = (s ++ universal_newlines t)%string.
Proof.
  induction s as [|c s IH]; intros H; [reflexivity|].
  simpl in H. apply orb_false_iff in H as [Hc Hs].
  rewrite str_app_cons. simpl. rewrite Hc, IH by exact Hs. reflexivity.
Qed.

Lemma universal_newlines_id (s : string) :
  has_char cr s = false -> universal_newlines s = s.
Proof.
  intros H. rewrite <- (str_app_nil_r s) at 1. rewrite universal_newlines_app by exact H.
  apply str_app_nil_r.
Qed.

Lemma readlines_nl_line (a t : string) :
  has_char nl a = false -> readlines (nl_line a ++ t) = nl_line a :: readlines t.
Proof.
  unfold nl_line. induction a as [|c a IH]; intros H; [reflexivity|].
  simpl in H. apply orb_false_iff in H as [Hc Ha].
  rewrite !str_app_cons. simpl. rewrite Hc. rewrite IH by exact Ha. reflexivity.
Qed.

Lemma text_of_lines_cons (l : string) (ls : list string) :
  text_of_lines (l :: ls) = (nl_line l ++ text_of_lines ls)%string.
Proof. reflexivity. Qed.

Lemma readlines_text_of_lines (ls : list string) :
  Forall (fun l => has_char nl l = false) ls -> readlines (text_of_lines ls) = map nl_line ls.
Proof.
  induction ls as [|l ls IH]; intros H; [reflexivity|].
  inversion H; subst. rewrite text_of_lines_cons, readlines_nl_line by assumption.
  now rewrite IH.
Qed.

Lemma join_cons (l : string) (ls : list string) : join (l :: ls) = (l ++ join ls)%string.
Proof. reflexivity. Qed.

Lemma join_readlines (s : string) : join (readlines s) = s.
Proof.
  induction s as [|c s IH]; [reflexivity|]. simpl.
  destruct (Ascii.eqb c nl).
  - rewrite join_cons, str_app_cons, str_app_nil_l, IH. reflexivity.
  - destruct (readlines s) as [|l ls] eqn:E.
    + simpl in IH. subst. reflexivity.
    + rewrite join_cons, str_app_cons. rewrite <- join_cons, IH. reflexivity.
Qed.

Lemma readlines_nonempty (s : string) : Forall (fun l => l <> EmptyString) (readlines s).
Proof.
  induction s as [|c s IH]; simpl; [constructor|].
  destruct (Ascii.eqb c nl).
  - constructor; [discriminate | exact IH].
  - destruct (readlines s) as [|l ls]; constructor; try discriminate; try constructor.
    now inversion IH.
Qed.




Lemma all_digits_app (s t : string) : all_digits (s ++ t) = all_digits s && all_digits t.
Proof. induction s as [|c s IH]; [reflexivity|]. rewrite str_app_cons. simpl. rewrite IH. apply andb_assoc. Qed.

Lemma val_digits_app (s t : string) (a : Z) : val_digits (s ++ t) a = val_digits t (val_digits s a).
Proof. revert a. induction s as [|c s IH]; intros a; [reflexivity|]. rewrite str_app_cons. apply IH. Qed.

Lemma digits_us_all_digits (s : string) (a : Z) :
  all_digits s = true -> digits_us s a = Some (val_digits s a).
Proof.
  revert a. induction s as [|c s IH]; intros a H; [reflexivity|].
  simpl in H. apply andb_true_iff in H as [Hc Hs]. simpl. rewrite Hc. now apply IH.
Qed.

Lemma digit_char_spec (d : Z) : 0 <= d < 10 ->
  let c := ascii_of_nat (Z.to_nat (48 + d)) in is_digit c = true /\ digit_val c = d.
Proof.
  intros Hd c. unfold c, is_digit, digit_val. clear c.
  assert (Hk : Z.of_nat (Z.to_nat (48 + d)) = 48 + d) by (apply Z2Nat.id; lia).
  rewrite nat_ascii_embedding by lia. split.
  - apply andb_true_iff. split; apply Nat.leb_le; lia.
  - lia.
Qed.

Lemma count_digits_app (s t : string) : count_digits (s ++ t) = count_digits s + count_digits t.
Proof. induction s as [|c s IH]; simpl; [reflexivity|]. rewrite IH. lia. Qed.

Lemma digits_of_spec (f : nat) : forall (n : Z) (acc : string),
  (1 <= f)%nat -> 0 <= n < 10 ^ Z.of_nat f ->
  exists s, digits_of f n acc = (s ++ acc)%string /\ s <> EmptyString /\
            all_digits s = true /\ val_digits s 0 = n /\
            (forall k, 0 < k -> n < 10 ^ k -> count_digits s <= k).
Proof.
  induction f as [|f IH]; intros n acc Hf Hn; [lia|].
  simpl. pose proof (digit_char_spec (n mod 10) (Z.mod_pos_bound n 10 ltac:(lia))) as [Hd Hv].
  set (d := ascii_of_nat (Z.to_nat (48 + n mod 10))) in *.
  destruct (n / 10 =? 0) eqn:Hq.
  - apply Z.eqb_eq in Hq. exists (String d EmptyString). split; [reflexivity|].
    split; [discriminate|]. simpl. rewrite Hd. split; [reflexivity|].
    split; [rewrite Hv; pose proof (Z.div_mod n 10); lia | intros; lia].
  - apply Z.eqb_neq in Hq.
    assert (Hf' : (1 <= f)%nat).
    { destruct f; [|lia]. exfalso. simpl in Hn. apply Hq. apply Z.div_small. lia. }
    destruct (IH (n / 10) (String d acc) Hf') as (s & E & Hne & Hds & Hvs & Hcs).
    { split; [apply Z.div_pos; lia|].
      rewrite Nat2Z.inj_succ, Z.pow_succ_r in Hn by lia.
      apply Z.div_lt_upper_bound; lia. }
    exists (s ++ String d EmptyString)%string. split.
    + rewrite E, <- append_assoc_str. reflexivity.
    + split; [destruct s; discriminate|]. split; [|split].
      * rewrite all_digits_app, Hds. simpl. now rewrite Hd.
      * rewrite val_digits_app, Hvs. simpl. rewrite Hv.
        pose proof (Z.div_mod n 10). lia.
      * intros k Hk Hnk. rewrite count_digits_app. simpl. rewrite Hd.
        assert (Hn10 : 10 <= n).
        { destruct (Z.lt_ge_cases n 10); [|assumption]. exfalso. apply Hq. apply Z.div_small. lia. }
        assert (Hk2 : 1 < k).
        { destruct (Z.eq_dec k 1) as [->|]; [lia | lia]. }
        assert (Hq' : n / 10 < 10 ^ (k - 1)).
        { apply Z.div_lt_upper_bound; [lia|]. rewrite <- Z.pow_succ_r by lia.
          now replace (Z.succ (k - 1)) with k by lia. }
        specialize (Hcs (k - 1) ltac:(lia) Hq'). lia.
Qed.


Lemma rev_string_rev (s acc b : string) :
  rev_string (rev_string s acc) b = rev_string acc (s ++ b).
Proof. revert acc b. induction s as [|c s IH]; intros acc b; [reflexivity|]. simpl. now rewrite IH. Qed.

Lemma rev_string_all (p : ascii -> bool) (s acc : string) :
  all_chars p s = true -> all_chars p acc = true -> all_chars p (rev_string s acc) = true.
Proof.
  revert acc. induction s as [|c s IH]; intros acc Hs Hacc; [exact Hacc|].
  simpl in *. apply andb_true_iff in Hs as [Hc Hs]. apply IH; [exact Hs|]. simpl. now rewrite Hc, Hacc.
Qed.

Lemma lstrip_id (s : string) : all_chars (fun c => negb (is_py_space c)) s = true -> lstrip s = s.
Proof.
  destruct s as [|c s]; [reflexivity|]. simpl. intros H.
  apply andb_true_iff in H as [Hc _]. apply negb_true_iff in Hc. now rewrite Hc.
Qed.

Lemma py_strip_id (s : string) : all_chars (fun c => negb (is_py_space c)) s = true -> py_strip s = s.
Proof.
  intros H. unfold py_strip. rewrite (lstrip_id s H).
  rewrite lstrip_id by (apply rev_string_all; [exact H | reflexivity]).
  rewrite rev_string_rev. simpl. apply str_app_nil_r.
Qed.

Lemma pos_lt_pow_size (p : positive) : Z.pos p < 2 ^ Z.of_nat (Pos.size_nat p).
Proof.
  induction p as [p IH|p IH|]; simpl Pos.size_nat; try (rewrite Nat2Z.inj_succ, Z.pow_succ_r by lia); lia.
Qed.

Lemma digit_not_space (c : ascii) : is_digit c = true -> negb (is_py_space c) = true.
Proof.
  unfold is_digit, is_py_space. intros H. apply andb_true_iff in H as [H1 H2].
  apply Nat.leb_le in H1, H2. apply negb_true_iff.
  apply orb_false_iff. split; [apply andb_false_iff; right; apply Nat.leb_gt; lia|].
  apply Nat.eqb_neq. lia.
Qed.

Lemma all_digits_not_space (s : string) :
  all_digits s = true -> all_chars (fun c => negb (is_py_space c)) s = true.
Proof.
  induction s as [|c s IH]; [reflexivity|]. simpl. intros H.
  apply andb_true_iff in H as [Hc Hs]. now rewrite digit_not_space, IH.
Qed.

Lemma digit_not_sign (c : ascii) : is_digit c = true ->
  Ascii.eqb c "-"%char = false /\ Ascii.eqb c "+"%char = false.
Proof.
  unfold is_digit. intros H. apply andb_true_iff in H as [H1 _]. apply Nat.leb_le in H1.
  split; apply Ascii.eqb_neq; intros ->; vm_compute in H1; lia.
Qed.

Lemma parse_unsigned_digits (s : string) :
  s <> EmptyString -> all_digits s = true -> parse_unsigned s = Some (val_digits s 0).
Proof.
  destruct s as [|c s]; [congruence|]. intros _ H. simpl in H.
  apply andb_true_iff in H as [Hc Hs]. simpl. rewrite Hc.
  now rewrite digits_us_all_digits.
Qed.

Lemma str_Z_digits (z : Z) :
  exists s, s <> EmptyString /\ all_digits s = true /\ val_digits s 0 = Z.abs z /\
    (forall k, 0 < k -> Z.abs z < 10 ^ k -> count_digits s <= k) /\
    str_Z z = if z <? 0 then String "-"%char s else s.
Proof.
  unfold str_Z.
  destruct (digits_of_spec (S (Pos.size_nat (Z.to_pos (Z.abs z)))) (Z.abs z) EmptyString)
    as (s & E & Hne & Hd & Hv & Hc); [lia| |].
  - split; [lia|]. destruct (Z.abs z) as [|p|p] eqn:Ha; [simpl; lia| |lia].
    simpl Z.to_pos. pose proof (pos_lt_pow_size p).
    rewrite Nat2Z.inj_succ, Z.pow_succ_r by lia.
    assert (2 ^ Z.of_nat (Pos.size_nat p) <= 10 ^ Z.of_nat (Pos.size_nat p))
      by (apply Z.pow_le_mono_l; lia).
    lia.
  - exists s. rewrite E, str_app_nil_r. auto.
Qed.

Lemma utf8_ascii (s : string) : all_chars (fun c => (nat_of_ascii c <? 128)%nat) s = true ->
  exists cps, utf8_decode s = Some cps /\ to_ascii_digits cps = s.
Proof.
  induction s as [|c s IH]; intros H; [exists []; split; reflexivity|].
  simpl in H. apply andb_true_iff in H as [Hc Hs]. destruct (IH Hs) as (cps & E & T).
  apply Nat.ltb_lt in Hc.
  assert (Hb : byte c <? 128 = true) by (apply Z.ltb_lt; unfold byte; lia).
  exists (byte c :: cps). split.
  - simpl. rewrite Hb, E. reflexivity.
  - simpl. rewrite Hb, T. unfold byte. rewrite Nat2Z.id, ascii_nat_embedding. reflexivity.
Qed.

Lemma digits_ascii (s : string) :
  all_digits s = true -> all_chars (fun c => (nat_of_ascii c <? 128)%nat) s = true.
Proof.
  induction s as [|c s IH]; [reflexivity|]. simpl. intros H.
  apply andb_true_iff in H as [Hc Hs]. rewrite IH by exact Hs.
  unfold is_digit in Hc. apply andb_true_iff in Hc as [_ Hc]. apply Nat.leb_le in Hc.
  rewrite andb_true_r. apply Nat.ltb_lt. lia.
Qed.

Lemma int_of_string_str_Z (z : Z) :
  Z.abs z < 10 ^ int_max_str_digits -> int_of_string (str_Z z) = Ok z.
Proof.
  intros Hz10.
  destruct (str_Z_digits z) as (s & Hne & Hd & Hv & Hcnt & ->).
  specialize (Hcnt int_max_str_digits ltac:(unfold int_max_str_digits; lia) Hz10).
  assert (Hcnt' : (int_max_str_digits <? count_digits s) = false) by (apply Z.ltb_ge; lia).
  unfold int_of_string.
  destruct (z <? 0) eqn:Hz.
  - destruct (utf8_ascii (String "-"%char s)) as (cps & E & T).
    { simpl. now rewrite digits_ascii. }
    rewrite E, T.
    rewrite py_strip_id.
    + assert (Hm : (int_max_str_digits <? count_digits (String "-"%char s)) = false)
        by exact Hcnt'.
      revert Hm. simpl. intros Hm. rewrite parse_unsigned_digits by assumption. simpl.
      rewrite Hm, Hv. f_equal.
      apply Z.ltb_lt in Hz. lia.
    + simpl. now rewrite all_digits_not_space.
  - destruct (utf8_ascii s) as (cps & E & T); [now apply digits_ascii|].
    rewrite E, T.
    rewrite py_strip_id by now apply all_digits_not_space.
    destruct s as [|c s']; [congruence|].
    assert (Hc : is_digit c = true) by (simpl in Hd; now apply andb_true_iff in Hd as [? _]).
    destruct (digit_not_sign c Hc) as [Hm Hp]. rewrite Hm, Hp.
    rewrite parse_unsigned_digits by assumption. rewrite Hcnt', Hv. f_equal.
    apply Z.ltb_ge in Hz. lia.
Qed.





Lemma lines_ok_readlines (s : string) : lines_ok (readlines s) = true.
Proof.
  induction s as [|c s IH]; [reflexivity|]. simpl.
  destruct (Ascii.eqb c nl) eqn:Hc.
  - simpl. rewrite Hc. simpl. exact IH.
  - destruct (readlines s) as [|l ls] eqn:E; simpl; rewrite Hc; [reflexivity|].
    simpl in IH. apply andb_true_iff in IH as [IH Hls]. apply andb_true_iff in IH as [IH Hend].
    apply andb_true_iff in IH as [Hne Hnl].
    destruct l as [|d l]; [discriminate|]. simpl. simpl in Hnl. rewrite Hnl, Hls.
    simpl in Hend. rewrite Hend. reflexivity.
Qed.

Lemma readlines_line (l t : string) :
  nl_last l = true -> ends_nl l = true -> readlines (l ++ t) = l :: readlines t.
Proof.
  induction l as [|c l IH]; intros Hn He; [discriminate|].
  rewrite str_app_cons. simpl in Hn. simpl.
  destruct (Ascii.eqb c nl) eqn:Hc.
  - apply String.eqb_eq in Hn. subst l. reflexivity.
  - destruct l as [|d l]; [simpl in He; congruence|].
    rewrite IH by assumption. reflexivity.
Qed.

Lemma readlines_last (l : string) :
  nl_last l = true -> ends_nl l = false -> l <> EmptyString -> readlines l = [l].
Proof.
  induction l as [|c l IH]; intros Hn He Hne; [congruence|].
  simpl in Hn. simpl.
  destruct (Ascii.eqb c nl) eqn:Hc.
  - apply String.eqb_eq in Hn. subst l. simpl in He. congruence.
  - destruct l as [|d l]; [reflexivity|].
    rewrite IH by (assumption || discriminate). reflexivity.
Qed.

Lemma readlines_join_ok (ls : list string) : lines_ok ls = true -> readlines (join ls) = ls.
Proof.
  induction ls as [|l ls IH]; intros H; [reflexivity|].
  simpl in H. apply andb_true_iff in H as [H Hls]. apply andb_true_iff in H as [H Hend].
  apply andb_true_iff in H as [Hne Hnl]. rewrite join_cons.
  destruct (ends_nl l) eqn:He.
  - rewrite readlines_line by assumption. now rewrite IH.
  - destruct ls; [|discriminate]. simpl. rewrite str_app_nil_r.
    apply readlines_last; try assumption.
    intros ->. discriminate.
Qed.

Lemma nl_last_app (p t : string) :
  has_char nl p = false -> nl_last (p ++ t) = nl_last t.
Proof.
  induction p as [|c p IH]; intros H; [reflexivity|].
  simpl in H. apply orb_false_iff in H as [Hc Hp]. rewrite str_app_cons. simpl. rewrite Hc. auto.
Qed.

Lemma ends_nl_app (p t : string) : t <> EmptyString -> ends_nl (p ++ t) = ends_nl t.
Proof.
  intros Ht. induction p as [|c p IH]; [reflexivity|].
  rewrite str_app_cons. simpl. rewrite IH. destruct p; simpl; [|reflexivity].
  destruct t; [congruence | reflexivity].
Qed.

Lemma nl_last_prefix (p t : string) :
  nl_last (p ++ t) = true -> t <> EmptyString -> has_char nl p = false.
Proof.
  induction p as [|c p IH]; intros H Ht; [reflexivity|].
  rewrite str_app_cons in H. simpl in H. simpl.
  destruct (Ascii.eqb c nl) eqn:Hc.
  - apply String.eqb_eq in H. destruct p as [|d p].
    + rewrite str_app_nil_l in H. congruence.
    + rewrite str_app_cons in H. discriminate.
  - simpl. auto.
Qed.

Lemma split_space_spec (l p wo : string) :
  split_space l = Some (p, wo) -> l = (p ++ String " " wo)%string /\ has_char " " p = false.
Proof.
  revert p wo. induction l as [|c l IH]; intros p wo H; [discriminate|].
  simpl in H. destruct (Ascii.eqb c " ") eqn:Hc.
  - injection H as <- <-. apply Ascii.eqb_eq in Hc. subst. auto.
  - destruct (split_space l) as [[a b]|] eqn:E; [|discriminate].
    injection H as <- <-. destruct (IH a b eq_refl) as [-> Ha].
    split; [reflexivity|]. simpl. now rewrite Hc, Ha.
Qed.

Lemma split_space_app (p t : string) :
  has_char " " p = false -> split_space (p ++ String " " t) = Some (p, t).
Proof.
  induction p as [|c p IH]; intros H; [reflexivity|].
  simpl in H. apply orb_false_iff in H as [Hc Hp]. rewrite str_app_cons. simpl.
  rewrite Hc, IH by exact Hp. reflexivity.
Qed.

(** Characters that [str] of an int never contains. *)
Lemma str_Z_no_char (ch : ascii) (z : Z) :
  is_digit ch = false -> Ascii.eqb ch "-"%char = false -> has_char ch (str_Z z) = false.
Proof.
  intros Hd Hm. destruct (str_Z_digits z) as (s & _ & Hs & _ & _ & ->).
  assert (Hs' : has_char ch s = false).
  { clear - Hs Hd. induction s as [|c s IH]; [reflexivity|].
    simpl in Hs. apply andb_true_iff in Hs as [Hc Hs]. simpl.
    rewrite IH by exact Hs. rewrite orb_false_r.
    apply Ascii.eqb_neq. intros ->. congruence. }
  destruct (z <? 0); cbn [has_char]; [|exact Hs'].
  rewrite Hs', orb_false_r, Ascii.eqb_sym. exact Hm.
Qed.

Lemma record_of_str_Z (v : Z) (wo : string) :
  Z.abs v < 10 ^ int_max_str_digits ->
  record_of (str_Z v ++ String " " wo) = Ok (v, wo).
Proof.
  intros Hv. unfold record_of. rewrite split_space_app by (apply str_Z_no_char; reflexivity).
  simpl. now rewrite int_of_string_str_Z.
Qed.

Lemma lookup_compose_map (m1 m2 : list (Z * Z)) (c : Z) :
  NoDup (map fst m1) ->
  lookup_class c (compose_map m1 m2) =
  match lookup_class c m1 with Some v => lookup_class v m2 | None => None end.
Proof.
  induction m1 as [|[k v] m1 IH]; intros Hnd; [reflexivity|].
  simpl in Hnd. apply NoDup_cons in Hnd as [Hk Hnd].
  unfold compose_map. simpl flat_map. fold (compose_map m1 m2).
  rewrite lookup_class_app. simpl.
  destruct (Z.eqb c k) eqn:E.
  - apply Z.eqb_eq in E. subst. destruct (lookup_class v m2) as [w|] eqn:Ew; simpl.
    + now rewrite Z.eqb_refl.
    + rewrite IH by exact Hnd.
      rewrite (proj2 (lookup_class_None k m1)); [reflexivity|].
      intros Hin. apply Hk. now apply list_elem_of_In.
  - destruct (lookup_class v m2); simpl; [rewrite E|]; apply IH; exact Hnd.
Qed.

Lemma universal_newlines_no_cr (s : string) : has_char cr (universal_newlines s) = false.
Proof.
  induction s as [|c s IH]; [reflexivity|]. cbn [universal_newlines].
  destruct (Ascii.eqb c cr) eqn:Hc.
  - destruct s as [|d s']; [reflexivity|].
    destruct (Ascii.eqb d nl) eqn:Hd; [|exact IH].
    apply Ascii.eqb_eq in Hd. subst d. exact IH.
  - cbn [has_char]. rewrite Hc. exact IH.
Qed.

Lemma has_char_join (ch : ascii) (ls : list string) :
  has_char ch (join ls) = existsb (has_char ch) ls.
Proof. induction ls as [|l ls IH]; [reflexivity|]. rewrite join_cons, has_char_app, IH. reflexivity. Qed.

Lemma readlines_no_char (ch : ascii) (s : string) :
  has_char ch s = false -> Forall (fun l => has_char ch l = false) (readlines s).
Proof.
  intros H. rewrite <- (join_readlines s), has_char_join in H.
  induction (readlines s) as [|l ls IH]; [constructor|].
  simpl in H. apply orb_false_iff in H as [Hl Hls]. constructor; auto.
Qed.

Lemma record_of_no_char (ch : ascii) (l : string) (c : Z) (wo : string) :
  record_of l = Ok (c, wo) -> has_char ch l = false -> has_char ch wo = false.
Proof.
  unfold record_of. destruct (split_space l) as [[p w]|] eqn:E; [|discriminate].
  destruct (int_of_string p); [|discriminate]. simpl. intros Heq. injection Heq as _ <-.
  destruct (split_space_spec _ _ _ E) as [-> _]. rewrite has_char_app. simpl.
  intros H. apply orb_false_iff in H as [_ H]. apply orb_false_iff in H as [_ H]. exact H.
Qed.

Lemma replace_lines_no_char (ch : ascii) (m : list (Z * Z)) (ls : list string) :
  is_digit ch = false -> Ascii.eqb ch "-"%char = false -> Ascii.eqb " "%char ch = false ->
  Forall (fun l => has_char ch l = false) ls -> has_char ch (fst (replace_lines m ls)) = false.
Proof.
  intros Hd Hm Hs. induction ls as [|l ls IH]; intros Hf; [reflexivity|].
  inversion Hf as [|? ? Hl Hls]; subst. simpl.
  destruct (record_of l) as [[c wo]|e] eqn:Er; [|reflexivity].
  destruct (lookup_class c m) as [v|]; [|reflexivity].
  unfold py_str_int. destruct (Z.abs v <? 10 ^ int_max_str_digits); [|reflexivity].
  specialize (IH Hls). destruct (replace_lines m ls) as [out err]. cbn [fst] in IH |- *.
  rewrite !has_char_app, str_Z_no_char by assumption. cbn [has_char]. rewrite Hs.
  rewrite (record_of_no_char ch l c wo Er Hl), IH. reflexivity.
Qed.

Lemma length_app_str (s t : string) : String.length (s ++ t) = (String.length s + String.length t)%nat.
Proof. induction s as [|c s IH]; simpl; [reflexivity | now rewrite IH]. Qed.

Definition high_bytes (s : string) : bool := all_chars (fun d => 128 <=? byte d) s.

Lemma in_range_high (lo hi : Z) (c : ascii) : 128 <= lo -> in_range lo hi c = true -> (128 <=? byte c) = true.
Proof. unfold in_range. intros Hl H. apply andb_true_iff in H as [H _]. apply Z.leb_le in H. apply Z.leb_le. lia. Qed.

Lemma utf8_first (c : ascii) (r : string) (y : list Z) :
  utf8_decode (String c r) = Some y ->
  exists p r' v, r = (p ++ r')%string /\ high_bytes p = true /\
    (forall t, utf8_decode (String c (p ++ t)) = option_map (cons v) (utf8_decode t)).
Proof.
  intros H. simpl in H. destruct (byte c <? 128) eqn:B.
  { exists EmptyString, r, (byte c). split; [reflexivity|]. split; [reflexivity|].
    intros t. simpl. now rewrite B. }
  destruct ((194 <=? byte c) && (byte c <=? 223)) eqn:B2.
  { destruct r as [|c1 r1]; [discriminate|].
    destruct (in_range 128 191 c1) eqn:I1; [|discriminate].
    eexists (String c1 EmptyString), r1, _. split; [reflexivity|]. split.
    - unfold high_bytes. simpl. rewrite (in_range_high 128 191 c1 ltac:(lia) I1). reflexivity.
    - intros t. simpl. rewrite B, B2, I1. reflexivity. }
  destruct ((224 <=? byte c) && (byte c <=? 239)) eqn:B3.
  { destruct r as [|c1 [|c2 r2]]; try discriminate.
    destruct (in_range (if byte c =? 224 then 160 else 128) (if byte c =? 237 then 159 else 191) c1
              && in_range 128 191 c2) eqn:I1; [|discriminate].
    eexists (String c1 (String c2 EmptyString)), r2, _. split; [reflexivity|]. split.
    - apply andb_true_iff in I1 as [I1 I2]. unfold high_bytes. simpl.
      rewrite (in_range_high 128 191 c2 ltac:(lia) I2).
      rewrite (in_range_high (if byte c =? 224 then 160 else 128) _ c1 ltac:(destruct (byte c =? 224); lia) I1). reflexivity.
    - intros t. simpl. rewrite B, B2, B3, I1. reflexivity. }
  destruct ((240 <=? byte c) && (byte c <=? 244)) eqn:B4; [|discriminate].
  destruct r as [|c1 [|c2 [|c3 r3]]]; try discriminate.
  destruct (in_range (if byte c =? 240 then 144 else 128) (if byte c =? 244 then 143 else 191) c1
            && in_range 128 191 c2 && in_range 128 191 c3) eqn:I1; [|discriminate].
  eexists (String c1 (String c2 (String c3 EmptyString))), r3, _. split; [reflexivity|]. split.
  - apply andb_true_iff in I1 as [I1 I3]. apply andb_true_iff in I1 as [I1 I2]. unfold high_bytes. simpl.
    rewrite (in_range_high 128 191 c2 ltac:(lia) I2), (in_range_high 128 191 c3 ltac:(lia) I3).
    rewrite (in_range_high (if byte c =? 240 then 144 else 128) _ c1 ltac:(destruct (byte c =? 240); lia) I1). reflexivity.
  - intros t. simpl. rewrite B, B2, B3, B4, I1. reflexivity.
Qed.

Lemma utf8_decode_app (a b : string) (x : list Z) :
  utf8_decode a = Some x -> utf8_decode (a ++ b) = option_map (app x) (utf8_decode b).
Proof.
  revert x. induction a as [a IH] using (induction_ltof1 _ String.length); intros x H.
  destruct a as [|c r].
  { injection H as <-. change ((EmptyString ++ b)%string) with b. destruct (utf8_decode b); reflexivity. }
  destruct (utf8_first c r x H) as (p & r' & v & -> & _ & Hf).
  rewrite Hf in H. destruct (utf8_decode r') as [x'|] eqn:Er; [|discriminate].
  injection H as <-.
  rewrite str_app_cons, <- append_assoc_str, Hf.
  rewrite (IH r' ltac:(unfold ltof; simpl; rewrite length_app_str; lia) x' Er).
  destruct (utf8_decode b); reflexivity.
Qed.

Lemma utf8_valid_iff (s : string) : utf8_valid s = true <-> exists y, utf8_decode s = Some y.
Proof. unfold utf8_valid. destruct (utf8_decode s); split; intros H; eauto; [discriminate | now destruct H]. Qed.

Lemma utf8_valid_app (a b : string) :
  utf8_valid a = true -> utf8_valid b = true -> utf8_valid (a ++ b) = true.
Proof.
  rewrite !utf8_valid_iff. intros [x Ha] [y Hb].
  rewrite (utf8_decode_app a b x Ha), Hb. eauto.
Qed.

Lemma utf8_decode_ascii (c : ascii) (r : string) :
  (byte c <? 128) = true -> utf8_decode (String c r) = option_map (cons (byte c)) (utf8_decode r).
Proof. intros B. simpl. now rewrite B. Qed.

Lemma high_bytes_prefix (c : ascii) (b : string) (p : string) : forall r r',
  high_bytes p = true -> (byte c <? 128) = true -> (p ++ r')%string = (r ++ String c b)%string ->
  exists r0, r = (p ++ r0)%string /\ r' = (r0 ++ String c b)%string.
Proof.
  induction p as [|d p IH]; intros r r' Hp Hc E.
  { exists r. split; [reflexivity | exact E]. }
  unfold high_bytes in Hp. simpl in Hp. apply andb_true_iff in Hp as [Hd Hp].
  destruct r as [|e r1].
  - simpl in E. injection E as -> _. apply Z.leb_le in Hd. apply Z.ltb_lt in Hc. lia.
  - simpl in E. injection E as -> E. destruct (IH r1 r' Hp Hc E) as (r0 & -> & ->).
    exists r0. split; reflexivity.
Qed.

Lemma utf8_split (a b : string) (c : ascii) :
  (byte c <? 128) = true -> utf8_valid (a ++ String c b) = true ->
  utf8_valid a = true /\ utf8_valid b = true.
Proof.
  intros Hc. induction a as [a IH] using (induction_ltof1 _ String.length).
  destruct a as [|c0 r]; intros H.
  { split; [reflexivity|]. change ((EmptyString ++ String c b)%string) with (String c b) in H.
    rewrite utf8_valid_iff in H |- *.
    destruct H as [y H]. rewrite utf8_decode_ascii in H by exact Hc.
    destruct (utf8_decode b); [eauto | discriminate]. }
  apply utf8_valid_iff in H as [y H]. rewrite str_app_cons in H.
  destruct (utf8_first c0 _ y H) as (p & r' & v & E & Hp & Hf).
  destruct (high_bytes_prefix c b p r r' Hp Hc (eq_sym E)) as (r0 & -> & ->).
  rewrite <- append_assoc_str, Hf in H.
  destruct (utf8_decode (r0 ++ String c b)) as [z|] eqn:Ez; [|discriminate].
  destruct (IH r0 ltac:(unfold ltof; simpl; rewrite length_app_str; lia)) as [H0 Hb].
  { apply utf8_valid_iff. eauto. }
  split; [|exact Hb]. apply utf8_valid_iff in H0 as [w H0]. apply utf8_valid_iff.
  rewrite Hf, H0. eauto.
Qed.

Lemma high_bytes_no_char (ch : ascii) (p : string) :
  (byte ch <? 128) = true -> high_bytes p = true -> has_char ch p = false.
Proof.
  intros Hc. induction p as [|d p IH]; [reflexivity|]. unfold high_bytes. simpl.
  intros H. apply andb_true_iff in H as [Hd Hp]. rewrite IH by exact Hp.
  rewrite orb_false_r. apply Ascii.eqb_neq. intros ->.
  apply Z.leb_le in Hd. apply Z.ltb_lt in Hc. lia.
Qed.

Lemma utf8_valid_universal_newlines (s : string) :
  utf8_valid s = true -> utf8_valid (universal_newlines s) = true.
Proof.
  induction s as [s IH] using (induction_ltof1 _ String.length).
  destruct s as [|c r]; intros H; [reflexivity|].
  apply utf8_valid_iff in H as [y H].
  destruct (Ascii.eqb c cr) eqn:Hcr.
  - apply Ascii.eqb_eq in Hcr. subst c.
    rewrite utf8_decode_ascii in H by reflexivity.
    destruct (utf8_decode r) as [yr|] eqn:Er; [|discriminate].
    cbn [universal_newlines]. rewrite Ascii.eqb_refl.
    destruct r as [|d r'].
    + reflexivity.
    + assert (Hr : utf8_valid (String d r') = true) by (apply utf8_valid_iff; eauto).
      destruct (Ascii.eqb d nl) eqn:Hd.
      * apply Ascii.eqb_eq in Hd. subst d.
        rewrite utf8_decode_ascii in Er by reflexivity.
        destruct (utf8_decode r') as [y'|] eqn:Er'; [|discriminate].
        specialize (IH r' ltac:(unfold ltof; simpl; lia)).
        apply utf8_valid_iff. rewrite utf8_decode_ascii by reflexivity.
        apply utf8_valid_iff in IH as [w ->]; [eauto|]. apply utf8_valid_iff; eauto.
      * specialize (IH (String d r') ltac:(unfold ltof; simpl; lia) Hr).
        apply utf8_valid_iff. rewrite utf8_decode_ascii by reflexivity.
        apply utf8_valid_iff in IH as [w ->]. eauto.
  - destruct (utf8_first c r y H) as (p & r' & v & -> & Hp & Hf).
    rewrite Hf in H. destruct (utf8_decode r') as [y'|] eqn:Er; [|discriminate].
    cbn [universal_newlines]. rewrite Hcr.
    rewrite universal_newlines_app by (apply high_bytes_no_char; [reflexivity | exact Hp]).
    destruct (proj1 (utf8_valid_iff _) (IH r' ltac:(unfold ltof; simpl; rewrite length_app_str; lia)
                 ltac:(apply utf8_valid_iff; eauto))) as [w Hw].
    apply utf8_valid_iff. rewrite Hf, Hw. eauto.
Qed.

Lemma readlines_cons_nonl (c : ascii) (s : string) :
  Ascii.eqb c nl = false ->
  readlines (String c s) = match readlines s with [] => [String c EmptyString] | l :: ls => String c l :: ls end.
Proof. intros Hc. simpl. now rewrite Hc. Qed.

Lemma readlines_cons_app (c : ascii) (q t : string) :
  Ascii.eqb c nl = false -> has_char nl q = false ->
  readlines (String c (q ++ t)) =
  match readlines t with [] => [String c q] | l :: ls => String c (q ++ l) :: ls end.
Proof.
  revert c. induction q as [|d q IH]; intros c Hc Hq.
  - rewrite readlines_cons_nonl by exact Hc. change ((EmptyString ++ t)%string) with t.
    destruct (readlines t); reflexivity.
  - simpl in Hq. apply orb_false_iff in Hq as [Hd Hq].
    rewrite str_app_cons, readlines_cons_nonl by exact Hc.
    rewrite (IH d) by (try rewrite Ascii.eqb_sym; assumption).
    destruct (readlines t); reflexivity.
Qed.

Lemma utf8_valid_readlines (s : string) :
  utf8_valid s = true -> Forall (fun l => utf8_valid l = true) (readlines s).
Proof.
  induction s as [s IH] using (induction_ltof1 _ String.length).
  destruct s as [|c r]; intros H; [constructor|].
  apply utf8_valid_iff in H as [y H].
  destruct (Ascii.eqb c nl) eqn:Hnl.
  - cbn [readlines]. rewrite Hnl. apply Ascii.eqb_eq in Hnl. subst c.
    rewrite utf8_decode_ascii in H by reflexivity.
    destruct (utf8_decode r) as [yr|] eqn:Er; [|discriminate].
    constructor; [reflexivity|]. apply IH; [unfold ltof; simpl; lia | apply utf8_valid_iff; eauto].
  - destruct (utf8_first c r y H) as (p & r' & v & -> & Hp & Hf).
    rewrite Hf in H. destruct (utf8_decode r') as [y'|] eqn:Er; [|discriminate].
    rewrite readlines_cons_app by (try apply high_bytes_no_char; auto).
    specialize (IH r' ltac:(unfold ltof; simpl; rewrite length_app_str; lia)
                ltac:(apply utf8_valid_iff; eauto)).
    destruct (readlines r') as [|l ls].
    + constructor; [|constructor]. apply utf8_valid_iff.
      rewrite <- (str_app_nil_r p), Hf. simpl. eauto.
    + inversion IH as [|? ? Hl Hls]; subst. constructor; [|exact Hls].
      apply utf8_valid_iff in Hl as [w Hw]. apply utf8_valid_iff. rewrite Hf, Hw. eauto.
Qed.

Lemma utf8_valid_str_Z (z : Z) : utf8_valid (str_Z z) = true.
Proof.
  destruct (str_Z_digits z) as (s & _ & Hd & _ & _ & ->). apply utf8_valid_iff.
  destruct (z <? 0).
  - destruct (utf8_ascii (String "-"%char s)) as (cps & E & _); [simpl; now rewrite digits_ascii|].
    eauto.
  - destruct (utf8_ascii s) as (cps & E & _); [now apply digits_ascii | eauto].
Qed.

Lemma replace_lines_valid (m : list (Z * Z)) (ls : list string) :
  Forall (fun l => utf8_valid l = true) ls -> utf8_valid (fst (replace_lines m ls)) = true.
Proof.
  induction ls as [|l ls IH]; intros Hf; [reflexivity|].
  inversion Hf as [|? ? Hl Hls]; subst. simpl.
  destruct (record_of l) as [[c wo]|e] eqn:Er; [|reflexivity].
  destruct (lookup_class c m) as [v|]; [|reflexivity].
  unfold py_str_int. destruct (Z.abs v <? 10 ^ int_max_str_digits); [|reflexivity].
  specialize (IH Hls). destruct (replace_lines m ls) as [out err]. cbn [fst] in IH |- *.
  unfold record_of in Er. destruct (split_space l) as [[p w]|] eqn:Es; [|discriminate].
  destruct (int_of_string p); [|discriminate]. simpl in Er. injection Er as _ <-.
  destruct (split_space_spec _ _ _ Es) as [-> _].
  destruct (utf8_split p w " "%char eq_refl Hl) as [_ Hw].
  apply utf8_valid_app; [apply utf8_valid_str_Z|].
  change ((" " ++ w ++ out)%string) with (String " " (w ++ out)).
  apply utf8_valid_iff. rewrite utf8_decode_ascii by reflexivity.
  apply utf8_valid_iff in Hw as [y Hy]. apply utf8_valid_iff in IH as [y' Hy'].
  rewrite (utf8_decode_app _ _ _ Hy), Hy'. eauto.
Qed.

Lemma replace_lines_compose (m1 m2 : list (Z * Z)) (ls : list string) (w1 : string) :
  NoDup (map fst m1) -> lines_ok ls = true -> replace_lines m1 ls = (w1, None) ->
  replace_lines m2 (readlines w1) = replace_lines (compose_map m1 m2) ls.
Proof.
  intros Hnd. revert w1. induction ls as [|l ls IH]; intros w1 Hok H1.
  { injection H1 as <-. reflexivity. }
  simpl in H1. destruct (record_of l) as [[c wo]|e] eqn:Er; [|discriminate].
  pose proof Er as Er0.
  destruct (lookup_class c m1) as [v|] eqn:Ev; [|discriminate].
  unfold py_str_int in H1. destruct (Z.abs v <? 10 ^ int_max_str_digits) eqn:Hsm; [|discriminate].
  apply Z.ltb_lt in Hsm.
  destruct (replace_lines m1 ls) as [w1' e'] eqn:E1. injection H1 as <- ->.
  simpl in Hok. apply andb_true_iff in Hok as [Hok Hls]. apply andb_true_iff in Hok as [Hok Hend].
  apply andb_true_iff in Hok as [Hne Hnl].
  unfold record_of in Er. destruct (split_space l) as [[p w]|] eqn:Es; [|discriminate].
  destruct (int_of_string p) eqn:Ep; [|discriminate]. simpl in Er. injection Er as -> ->.
  destruct (split_space_spec _ _ _ Es) as [Hl _]. subst l.
  assert (Hp : has_char nl p = false) by (eapply nl_last_prefix; [exact Hnl | discriminate]).
  set (l' := (str_Z v ++ String " " wo)%string).
  assert (Hnl' : nl_last l' = true).
  { unfold l'. rewrite nl_last_app by (apply str_Z_no_char; reflexivity).
    rewrite nl_last_app in Hnl by exact Hp. exact Hnl. }
  assert (Hend' : ends_nl l' = ends_nl (p ++ String " " wo)).
  { unfold l'. rewrite !ends_nl_app by discriminate. reflexivity. }
  assert (Hw : (str_Z v ++ " " ++ wo ++ w1')%string = (l' ++ w1')%string).
  { unfold l'. rewrite <- append_assoc_str. reflexivity. }
  rewrite Hw.
  assert (Hrl : readlines (l' ++ w1') = l' :: readlines w1').
  { destruct (ends_nl (p ++ String " " wo)) eqn:He.
    - apply readlines_line; [exact Hnl' | now rewrite Hend'].
    - destruct ls; [|discriminate]. injection E1 as <-.
      rewrite str_app_nil_r. apply readlines_last; [exact Hnl' | now rewrite Hend' | ].
      unfold l'. destruct (str_Z v); discriminate. }
  rewrite Hrl. cbn [replace_lines]. unfold l'. rewrite record_of_str_Z, Er0 by exact Hsm.
  rewrite lookup_compose_map by exact Hnd. rewrite Ev.
  destruct (lookup_class v m2) as [w|]; [|reflexivity].
  destruct (py_str_int w); [|reflexivity].
  rewrite (IH w1' Hls eq_refl). reflexivity.
Qed.

(** [TXTAnnotations.replace_classes]: when replacing with [m1] (distinct
    keys) succeeds, replacing with [m2] afterwards gives the same outcome as
    one replacement with the composed map [m2[m1[k]]]: the same exception or
    success, and on success the same file. *)
Theorem replace_classes_compose (m1 m2 : list (Z * Z)) (p : string) (fs fs1 : fs_t)
    (Hnd : NoDup (map fst m1))
    (H1 : snd (replace_classes m1 [p] fs) = (Ok tt, fs1)) :
  let '(r2, fs2) := snd (replace_classes m2 [p] fs1) in
  let '(r, fs') := snd (replace_classes (compose_map m1 m2) [p] fs) in
  r2 = r /\ (r = Ok tt -> fs2 = fs').
Proof.
  unfold replace_classes in *. cbn [snd replace_files] in *.
  destruct (fs !! p) as [old|] eqn:Hp; [|discriminate].
  destruct (utf8_valid old) eqn:Hv; cbn [negb] in *; [|discriminate].
  destruct (replace_lines m1 (readlines (universal_newlines old))) as [w1 e1] eqn:E1.
  destruct e1; [discriminate|]. injection H1 as <-. cbn [after_rewrite].
  rewrite lookup_insert_eq.
  assert (Hw1 : utf8_valid w1 = true).
  { change w1 with (fst (w1, @None pyerr)). rewrite <- E1.
    apply replace_lines_valid, utf8_valid_readlines, utf8_valid_universal_newlines, Hv. }
  rewrite Hw1. cbn [negb].
  assert (Hcr : has_char cr w1 = false).
  { change w1 with (fst (w1, @None pyerr)). rewrite <- E1.
    apply replace_lines_no_char; try reflexivity.
    apply readlines_no_char, universal_newlines_no_cr. }
  rewrite universal_newlines_id by exact Hcr.
  rewrite (replace_lines_compose m1 m2 _ w1 Hnd (lines_ok_readlines _) E1).
  destruct (replace_lines (compose_map m1 m2) (readlines (universal_newlines old))) as [w2 [e|]].
  - split; [reflexivity | discriminate].
  - split; [reflexivity|]. intros _. apply insert_insert_eq.
Qed.

Lemma replace_classes_compose_witness :
  let fs := <["a.txt" := text_of_lines ["0 x"; "1 y"]]> (∅ : fs_t) in
  let fs1 := <["a.txt" := text_of_lines ["1 x"; "0 y"]]> (∅ : fs_t) in
  NoDup (map fst [(0, 1); (1, 0)]) /\
  snd (replace_classes [(0, 1); (1, 0)] ["a.txt"] fs) = (Ok tt, fs1) /\
  let '(r2, fs2) := snd (replace_classes [(0, 5); (1, 6)] ["a.txt"] fs1) in
  let '(r, fs') := snd (replace_classes (compose_map [(0, 1); (1, 0)] [(0, 5); (1, 6)]) ["a.txt"] fs) in
  r2 = r /\ (r = Ok tt -> fs2 = fs').
Proof.
  intros fs fs1.
  assert (Hnd : NoDup (map fst [(0, 1); (1, 0)])) by (apply (bool_decide_unpack _); reflexivity).
  assert (H1 : snd (replace_classes [(0, 1); (1, 0)] ["a.txt"] fs) = (Ok tt, fs1)) by reflexivity.
  split; [exact Hnd | split; [exact H1|]].
  exact (replace_classes_compose _ [(0, 5); (1, 6)] "a.txt" fs fs1 Hnd H1).
Defined.


Lemma removed_count_cons (R : list Z) (x : Z) (l : list Z) :
  removed_count R (x :: l) = (if mem_Z x R then 1 else 0) + removed_count R l.
Proof. unfold removed_count. simpl. destruct (mem_Z x R); simpl length; lia. Qed.

Lemma update_loop_lookup (R cfg : list Z) : forall (keep : list (Z * Z)) (s c : Z),
  lookup_class c (update_loop R cfg keep s) =
  match lookup_class c keep with
  | Some v => Some v
  | None => if mem_Z c cfg && negb (mem_Z c R)
            then Some (c - s - removed_count R (prefix_before c cfg)) else None
  end.
Proof.
  induction cfg as [|x cfg IH]; intros keep s c; simpl.
  { destruct (lookup_class c keep); reflexivity. }
  destruct (Z.eqb c x) eqn:Ecx.
  - apply Z.eqb_eq in Ecx. subst x. rewrite Z.eqb_refl. simpl.
    destruct (mem_Z c R) eqn:Hm.
    + rewrite IH, Hm. simpl. destruct (lookup_class c keep); [reflexivity|].
      destruct (mem_Z c cfg); reflexivity.
    + destruct (lookup_class c keep) eqn:Hk.
      * rewrite IH, Hk. reflexivity.
      * rewrite IH, lookup_class_app, Hk. simpl. rewrite Z.eqb_refl.
        unfold removed_count. simpl. f_equal. lia.
  - assert (Exc : Z.eqb x c = false) by (rewrite Z.eqb_sym; exact Ecx).
    rewrite Exc. rewrite removed_count_cons. cbn [orb].
    assert (Hmem : mem_Z c (x :: cfg) = mem_Z c cfg).
    { unfold mem_Z. simpl. rewrite Ecx. reflexivity. }
    destruct (mem_Z x R) eqn:Hx.
    + rewrite IH. destruct (lookup_class c keep); [reflexivity|].
      destruct (mem_Z c cfg && negb (mem_Z c R)); [|reflexivity]. f_equal; lia.
    + destruct (lookup_class x keep).
      * rewrite IH. destruct (lookup_class c keep); [reflexivity|].
        destruct (mem_Z c cfg && negb (mem_Z c R)); [|reflexivity]. f_equal; lia.
      * rewrite IH, lookup_class_app. simpl. rewrite Ecx.
        destruct (lookup_class c keep); [reflexivity|].
        destruct (mem_Z c cfg && negb (mem_Z c R)); [|reflexivity]. f_equal; lia.
Qed.

Lemma update_loop_nodup (R cfg : list Z) : forall (keep : list (Z * Z)) (s : Z),
  NoDup (map fst keep) -> NoDup (map fst (update_loop R cfg keep s)).
Proof.
  induction cfg as [|x cfg IH]; intros keep s Hnd; simpl; [exact Hnd|].
  destruct (mem_Z x R); [now apply IH|].
  destruct (lookup_class x keep) eqn:Hk; [now apply IH|].
  apply IH. rewrite map_app. simpl. apply NoDup_app. split; [exact Hnd|]. split.
  - intros y Hy Hy'. apply list_elem_of_In in Hy. apply list_elem_of_singleton in Hy'. subst y.
    apply lookup_class_None in Hk. contradiction.
  - apply NoDup_singleton.
Qed.

Lemma update_classes_Ok (cfg to_remove : list Z) (keep : list (Z * Z)) :
  update_classes cfg to_remove = Ok keep -> keep = update_loop to_remove cfg [] 0.
Proof. unfold update_classes. destruct cfg; [discriminate | congruence]. Qed.

Lemma update_classes_key_set (cfg to_remove : list Z) (keep : list (Z * Z))
    (H : update_classes cfg to_remove = Ok keep) :
  NoDup (map fst keep) /\
  forall c, In c (map fst keep) <-> In c cfg /\ ~ In c to_remove.
Proof.
  apply update_classes_Ok in H. subst keep. split.
  - apply update_loop_nodup. constructor.
  - intros c. rewrite <- (mem_Z_In c cfg), <- (mem_Z_In c to_remove).
    destruct (lookup_class c (update_loop to_remove cfg [] 0)) eqn:E.
    + assert (Hin : In c (map fst (update_loop to_remove cfg [] 0))).
      { destruct (in_dec Z.eq_dec c (map fst (update_loop to_remove cfg [] 0))) as [Hi|Hi];
          [exact Hi|]. apply lookup_class_None in Hi. congruence. }
      rewrite update_loop_lookup in E. simpl in E.
      destruct (mem_Z c cfg), (mem_Z c to_remove); try discriminate.
      split; [intros _; split; [reflexivity | discriminate]|]. intros _. exact Hin.
    + pose proof E as E'. apply lookup_class_None in E'. rewrite update_loop_lookup in E. simpl in E.
      split; [intros Hin; contradiction|].
      intros [Hc Hr]. rewrite Hc in E. apply not_true_is_false in Hr. rewrite Hr in E. discriminate.
Qed.

(** [TXTAnnotations.update_classes]: when it returns, the ids of [keep] are
    distinct and are exactly the ids of the config that are not removed. *)
Theorem update_classes_keys (cfg to_remove : list Z) (keep : list (Z * Z))
    (H : update_classes cfg to_remove = Ok keep) :
  NoDup (map fst keep) /\
  forall c, In c (map fst keep) <-> In c cfg /\ ~ In c to_remove.
Proof. exact (update_classes_key_set cfg to_remove keep H). Qed.

(** [TXTAnnotations.update_classes]: a kept id [c] is mapped to [c] minus the
    number of removed entries of the config before the first occurrence of [c]. *)
Theorem update_classes_values (cfg to_remove : list Z) (keep : list (Z * Z))
    (H : update_classes cfg to_remove = Ok keep) (c : Z)
    (Hc : In c cfg) (Hr : ~ In c to_remove) :
  lookup_class c keep = Some (c - removed_count to_remove (prefix_before c cfg)).
Proof.
  apply update_classes_Ok in H. subst keep. rewrite update_loop_lookup. simpl.
  apply mem_Z_In in Hc. rewrite Hc.
  destruct (mem_Z c to_remove) eqn:E; [apply mem_Z_In in E; contradiction|].
  simpl. f_equal. lia.
Qed.

Lemma update_classes_keys_witness :
  update_classes [0; 1; 1; 2] [1] = Ok [(0, 0); (2, 0)] /\
  NoDup (map fst [(0, 0); (2, 0)]) /\
  forall c, In c (map fst [(0, 0); (2, 0)]) <-> In c [0; 1; 1; 2] /\ ~ In c [1].
Proof.
  assert (H : update_classes [0; 1; 1; 2] [1] = Ok [(0, 0); (2, 0)]) by reflexivity.
  split; [exact H|]. exact (update_classes_keys _ _ _ H).
Defined.

Lemma update_classes_values_witness :
  let cfg := [0; 1; 1; 2] in let R := [1] in
  update_classes cfg R = Ok [(0, 0); (2, 0)] /\ In 2 cfg /\ ~ In 2 R /\
  lookup_class 2 [(0, 0); (2, 0)] = Some (2 - removed_count R (prefix_before 2 cfg)).
Proof.
  intros cfg R.
  assert (H : update_classes cfg R = Ok [(0, 0); (2, 0)]) by reflexivity.
  assert (Hc : In 2 cfg) by (simpl; tauto).
  assert (Hr : ~ In 2 R) by (simpl; lia).
  split; [exact H | split; [exact Hc | split; [exact Hr|]]].
  exact (update_classes_values cfg R _ H 2 Hc Hr).
Defined.


Lemma remove_files_frame (keep : list (Z * Z)) (R : list Z) (files : list string) :
  forall (fs : fs_t) (q : string), ~ In q files ->
  snd (remove_files keep R files fs) !! q = fs !! q.
Proof.
  induction files as [|p ps IH]; intros fs q Hq; [reflexivity|]. simpl.
  assert (Hpq : p <> q) by (intros ->; apply Hq; left; reflexivity).
  destruct (fs !! p) as [old|]; [|reflexivity].
  destruct (negb (utf8_valid old)); [reflexivity|].
  destruct (remove_lines keep R (readlines (universal_newlines old))) as [w [e|]].
  - simpl. now rewrite lookup_insert_ne.
  - rewrite IH by (intros H; apply Hq; right; exact H). now rewrite lookup_insert_ne.
Qed.

(** [TXTAnnotations.remove_class] only writes the files it is given: any
    other path keeps its content. *)
Theorem remove_class_frame (cfg to_remove : list Z) (files : list string) (fs : fs_t) (q : string)
    (Hq : ~ In q files) :
  snd (remove_class cfg to_remove files fs) !! q = fs !! q.
Proof.
  unfold remove_class. destruct (update_classes cfg to_remove) as [keep|e]; [|reflexivity].
  now apply remove_files_frame.
Qed.

Lemma remove_class_frame_witness :
  let fs := <["a.txt" := text_of_lines ["1 x"]]> (<["b.txt" := text_of_lines ["1 y"]]> (∅ : fs_t)) in
  ~ In "b.txt" ["a.txt"] /\
  snd (remove_class [0; 1] [1] ["a.txt"] fs) !! "b.txt" = fs !! "b.txt".
Proof.
  intros fs.
  assert (Hq : ~ In "b.txt" ["a.txt"]) by (intros [H|[]]; discriminate).
  split; [exact Hq|]. exact (remove_class_frame [0; 1] [1] ["a.txt"] fs "b.txt" Hq).
Defined.

Lemma substring_full (s : string) : substring 0 (String.length s) s = s.
Proof. induction s as [|c s IH]; [reflexivity|]. simpl. now rewrite IH. Qed.

(** [TXTAnnotations.remove_class]: for a UTF-8 file whose first line cannot
    be parsed (it has no space, or [int] of its first field fails), the
    exception propagates and the file is left as it was: nothing was written
    before the error. *)
Theorem remove_class_bad_first_line (cfg to_remove : list Z) (p old line : string)
    (rest : list string) (fs : fs_t) (e : pyerr)
    (Hcfg : cfg <> []) (Hp : fs !! p = Some old) (Hu : utf8_valid old = true)
    (Hl : readlines (universal_newlines old) = line :: rest)
    (Hbad : record_of line = Raise e) :
  remove_class cfg to_remove [p] fs = (Raise e, fs).
Proof.
  unfold remove_class, update_classes. destruct cfg as [|x cfg']; [congruence|].
  simpl. rewrite Hp, Hu. simpl. rewrite Hl. simpl. rewrite Hbad. simpl.
  rewrite substring_full, insert_id by exact Hp. reflexivity.
Qed.

Lemma remove_class_bad_first_line_witness :
  let old := text_of_lines ["x"] in
  let fs := <["a.txt" := old]> (∅ : fs_t) in
  [0] <> [] /\ fs !! "a.txt" = Some old /\ utf8_valid old = true /\
  readlines (universal_newlines old) = [old] /\ record_of old = Raise ValueError /\
  remove_class [0] [] ["a.txt"] fs = (Raise ValueError, fs).
Proof.
  intros old fs.
  assert (Hcfg : [0] <> []) by discriminate.
  assert (Hp : fs !! "a.txt" = Some old) by reflexivity.
  assert (Hu : utf8_valid old = true) by reflexivity.
  assert (Hl : readlines (universal_newlines old) = [old]) by reflexivity.
  assert (Hbad : record_of old = Raise ValueError) by reflexivity.
  split; [exact Hcfg | split; [exact Hp | split; [exact Hu | split; [exact Hl | split; [exact Hbad|]]]]].
  exact (remove_class_bad_first_line [0] [] "a.txt" old old [] fs ValueError Hcfg Hp Hu Hl Hbad).
Defined.

Lemma update_lines_identity (ls : list string) :
  Forall (fun l => l <> EmptyString) ls -> update_lines (fun line => Ok line) ls = (join ls, None).
Proof.
  induction ls as [|l ls IH]; intros H; [reflexivity|].
  inversion H as [|? ? Hl Hls]; subst. simpl. rewrite IH by exact Hls.
  destruct (String.eqb l EmptyString) eqn:E; [apply String.eqb_eq in E; congruence|]. reflexivity.
Qed.

(** [read_and_update] with the identity line function, on files that exist
    and are UTF-8, rewrites each given file with its text-mode reading
    (universal newlines) and changes nothing else. *)
Theorem read_and_update_identity (files : list string) (fs : fs_t)
    (Hex : forall p, In p files -> exists old, fs !! p = Some old /\ utf8_valid old = true) :
  exists fs', read_and_update (fun line => Ok line) files fs = (Ok tt, fs') /\
    forall q, fs' !! q = if in_dec string_dec q files then universal_newlines <$> fs !! q
                         else fs !! q.
Proof.
  revert fs Hex. induction files as [|p ps IH]; intros fs Hex.
  { exists fs. split; [reflexivity|]. intros q. reflexivity. }
  destruct (Hex p (or_introl eq_refl)) as (old & Hp & Hu). cbn [read_and_update]. rewrite Hp, Hu.
  cbn [negb].
  rewrite update_lines_identity by apply readlines_nonempty. rewrite join_readlines.
  cbn [after_rewrite].
  destruct (IH (<[p := universal_newlines old]> fs)) as (fs' & E & Hq).
  { intros p' Hin. destruct (decide (p = p')) as [<-|Hne].
    - rewrite lookup_insert_eq. eexists; split; [reflexivity|].
      now apply utf8_valid_universal_newlines.
    - rewrite lookup_insert_ne by exact Hne. apply Hex. right. exact Hin. }
  exists fs'. split; [exact E|]. intros q. rewrite Hq.
  destruct (decide (p = q)) as [<-|Hne].
  - rewrite lookup_insert_eq, Hp.
    destruct (in_dec string_dec p (p :: ps)) as [_|H]; [|exfalso; apply H; left; reflexivity].
    destruct (in_dec string_dec p ps); [|reflexivity].
    simpl. f_equal. apply universal_newlines_id, universal_newlines_no_cr.
  - rewrite lookup_insert_ne by exact Hne.
    destruct (in_dec string_dec q ps) as [Hin|Hnin];
      destruct (in_dec string_dec q (p :: ps)) as [Hin'|Hnin']; try reflexivity.
    + exfalso. apply Hnin'. right. exact Hin.
    + destruct Hin' as [E'|E']; [congruence | contradiction].
Qed.

Lemma read_and_update_identity_witness :
  let fs := <["a.txt" := String "x"%char (String cr (String nl "y"))]> (∅ : fs_t) in
  (forall p, In p ["a.txt"] -> exists old, fs !! p = Some old /\ utf8_valid old = true) /\
  exists fs', read_and_update (fun line => Ok line) ["a.txt"] fs = (Ok tt, fs') /\
    forall q, fs' !! q = if in_dec string_dec q ["a.txt"] then universal_newlines <$> fs !! q
                         else fs !! q.
Proof.
  intros fs.
  assert (Hex : forall p, In p ["a.txt"] -> exists old, fs !! p = Some old /\ utf8_valid old = true).
  { intros p [<-|[]]. eexists. split; reflexivity. }
  split; [exact Hex|]. exact (read_and_update_identity ["a.txt"] fs Hex).
Defined.

(** [TXTAnnotations.empty_txt] makes each given file empty and leaves every
    other path as it was. *)
Theorem empty_txt_spec (files : list string) (fs : fs_t) (q : string) :
  empty_txt files fs !! q = if in_dec string_dec q files then Some EmptyString else fs !! q.
Proof.
  revert fs. induction files as [|p ps IH]; intros fs; [reflexivity|]. simpl. rewrite IH.
  destruct (in_dec string_dec q ps) as [Hin|Hnin];
    destruct (string_dec p q) as [<-|Hne]; simpl.
  - destruct (in_dec string_dec p (p :: ps)) as [_|H]; [reflexivity|]. exfalso; apply H; left; reflexivity.
  - destruct (in_dec string_dec q (p :: ps)) as [_|H]; [reflexivity|]. exfalso; apply H; right; exact Hin.
  - rewrite lookup_insert_eq. destruct (in_dec string_dec p (p :: ps)) as [_|H]; [reflexivity|].
    exfalso; apply H; left; reflexivity.
  - rewrite lookup_insert_ne by exact Hne. destruct (in_dec string_dec q (p :: ps)) as [[E|E]|_];
      [congruence | contradiction | reflexivity].
Qed.

Lemma json2txt_file_frame (json_load : string -> option json_doc) (float_repr : float64 -> string)
    (map_config : list (Z * Z)) (txt_path j : string) (fs : fs_t) (q : string) :
  q <> combine_path txt_path (get_filename j) ->
  snd (json2txt_file json_load float_repr map_config txt_path j fs) !! q = fs !! q.
Proof.
  intros Hq. unfold json2txt_file.
  destruct (fs !! j); [|reflexivity].
  destruct (<[combine_path txt_path (get_filename j) := EmptyString]> fs !! j) as [content|];
    [|simpl; now rewrite lookup_insert_ne by congruence].
  destruct (negb (utf8_valid content)); [simpl; now rewrite lookup_insert_ne by congruence|].
  destruct (json_load content) as [data|]; [|simpl; now rewrite lookup_insert_ne by congruence].
  destruct (write_objects _ _ _ _ _) as [out [e|]]; simpl;
    rewrite !lookup_insert_ne by congruence; reflexivity.
Qed.

(** [json2txt] writes only the txt files named after its json files: any
    other path keeps its content, whatever the outcome. *)
Theorem json2txt_frame (json_load : string -> option json_doc) (float_repr : float64 -> string)
    (map_config : list (Z * Z)) (txt_path : string) (json_files : list string) (fs : fs_t)
    (q : string) (Hq : forall j, In j json_files -> q <> combine_path txt_path (get_filename j)) :
  snd (json2txt json_load float_repr map_config txt_path json_files fs) !! q = fs !! q.
Proof.
  revert fs. induction json_files as [|j js IH]; intros fs; [reflexivity|]. simpl.
  pose proof (json2txt_file_frame json_load float_repr map_config txt_path j fs q
                (Hq j (or_introl eq_refl))) as Hf.
  destruct (json2txt_file json_load float_repr map_config txt_path j fs) as [[u|e] fs'].
  - rewrite IH by (intros j' Hj'; apply Hq; right; exact Hj'). exact Hf.
  - exact Hf.
Qed.

Lemma json2txt_frame_witness :
  let fs := <["txt/b.txt" := "0 y"]> (<["ann/a.json" := "{"]> (∅ : fs_t)) in
  (forall j, In j ["ann/a.json"] -> "txt/b.txt" <> combine_path "txt" (get_filename j)) /\
  snd (json2txt (fun _ => None) (fun _ => "0") [(5, 0)] "txt" ["ann/a.json"] fs) !! "txt/b.txt"
    = fs !! "txt/b.txt".
Proof.
  intros fs.
  assert (Hq : forall j, In j ["ann/a.json"] -> "txt/b.txt" <> combine_path "txt" (get_filename j)).
  { intros j [<-|[]] H. vm_compute in H. discriminate. }
  split; [exact Hq|].
  exact (json2txt_frame (fun _ => None) (fun _ => "0") [(5, 0)] "txt" ["ann/a.json"] fs _ Hq).
Defined.

Lemma basename_app_slash (a b : string) : basename (a ++ String slash b) = basename b.
Proof.
  destruct (has_char slash b) eqn:Hb.
  - induction a as [|c a IH]; simpl.
    + rewrite Hb. reflexivity.
    + rewrite has_char_app. simpl. rewrite orb_true_r. exact IH.
  - rewrite basename_after_slash by exact Hb. now rewrite basename_no_slash.
Qed.

(** [get_filename] is idempotent and ignores the directory part of a path. *)
Theorem get_filename_idempotent_dir (dir path : string) :
  get_filename (get_filename path) = get_filename path /\
  get_filename (dir ++ String slash path) = get_filename path.
Proof.
  split.
  - unfold get_filename at 1 3.
    rewrite basename_no_slash by (apply before_dot_keeps_no_slash, basename_has_no_slash).
    assert (H : forall s, has_char dot s = false -> before_dot s = s).
    { induction s as [|c s IH]; [reflexivity|]. simpl. intros H.
      apply orb_false_iff in H as [Hc Hs]. rewrite Hc. now rewrite IH. }
    apply H, before_dot_no_dot.
  - unfold get_filename. now rewrite basename_app_slash.
Qed.




Lemma write_objects_line (map_config : list (Z * Z)) (float_repr : float64 -> string)
    (width height : Z) (obj : json_obj) :
  (forall f, has_char nl (float_repr f) = false) ->
  obj_ok map_config width height obj = true ->
  exists v a, lookup_class (classId obj) map_config = Some v /\ has_char nl a = false /\
    forall objs', write_objects map_config float_repr width height (obj :: objs') =
      let '(out, err) := write_objects map_config float_repr width height objs' in
      ((nl_line (str_Z v ++ String " " a) ++ out)%string, err).
Proof.
  intros Hfr Hok. unfold obj_ok, obj_box in Hok.
  destruct (exterior obj) as [|[xmin ymin] pts] eqn:Hext; [discriminate|].
  destruct (List.last ((xmin, ymin) :: pts) (xmin, ymin)) as [xmax ymax] eqn:Hlast.
  destruct (bbox2yolo width height xmin ymin xmax ymax) as [[[[x y] w] h]|e] eqn:Hb;
    [|discriminate].
  destruct (lookup_class (classId obj) map_config) as [v|] eqn:Hv; [|discriminate].
  apply Z.ltb_lt in Hok.
  exists v, (float_repr x ++ " " ++ float_repr y ++ " " ++ float_repr w ++ " " ++ float_repr h)%string.
  split; [reflexivity|]. split.
  - rewrite !has_char_app, !Hfr. reflexivity.
  - intros objs'. cbn [write_objects]. rewrite Hext. cbv beta iota. rewrite Hlast, Hb.
    rewrite Hv, py_str_int_small by exact Hok. reflexivity.
Qed.

Lemma str_Z_no_nl (v : Z) (a : string) :
  has_char nl a = false -> has_char nl (str_Z v ++ String " " a) = false.
Proof.
  intros Ha. rewrite has_char_app, str_Z_no_char by reflexivity. cbn [has_char]. exact Ha.
Qed.

Lemma write_objects_all_ok (map_config : list (Z * Z)) (float_repr : float64 -> string)
    (width height : Z) (objs : list json_obj) :
  (forall f, has_char nl (float_repr f) = false) ->
  forallb (obj_ok map_config width height) objs = true ->
  exists out, write_objects map_config float_repr width height objs = (out, None) /\
    Forall2 (yolo_line map_config) (readlines out) objs.
Proof.
  intros Hfr. induction objs as [|obj objs IH]; intros Hok.
  { exists EmptyString. split; [reflexivity | constructor]. }
  simpl in Hok. apply andb_true_iff in Hok as [Ho Hos].
  destruct (write_objects_line map_config float_repr width height obj Hfr Ho) as (v & a & Hv & Ha & E).
  destruct (IH Hos) as (out & Eo & Hf). rewrite E, Eo.
  eexists. split; [reflexivity|].
  rewrite readlines_nl_line by (apply str_Z_no_nl; exact Ha).
  constructor; [|exact Hf]. exists v, a. auto.
Qed.

Lemma write_objects_unmapped (map_config : list (Z * Z)) (float_repr : float64 -> string)
    (width height : Z) (objs1 objs2 : list json_obj) (obj : json_obj) :
  (forall f, has_char nl (float_repr f) = false) ->
  forallb (obj_ok map_config width height) objs1 = true ->
  (exists r, obj_box width height obj = Some (Ok r)) ->
  lookup_class (classId obj) map_config = None ->
  exists out, write_objects map_config float_repr width height (objs1 ++ obj :: objs2) =
    (out, Some KeyError) /\ Forall2 (yolo_line map_config) (readlines out) objs1.
Proof.
  intros Hfr Hok [r Hb] Hv. induction objs1 as [|o objs1 IH].
  - exists EmptyString. split; [|constructor]. simpl. unfold obj_box in Hb.
    destruct (exterior obj) as [|[xmin ymin] pts]; [discriminate|].
    destruct (List.last ((xmin, ymin) :: pts) (xmin, ymin)) as [xmax ymax].
    injection Hb as ->. destruct r as [[[x y] w] h]. rewrite Hv. reflexivity.
  - simpl in Hok. apply andb_true_iff in Hok as [Ho Hos].
    destruct (write_objects_line map_config float_repr width height o Hfr Ho) as (v & a & Hv' & Ha & E).
    destruct (IH Hos) as (out & Eo & Hf). rewrite <- app_comm_cons, E, Eo.
    eexists. split; [reflexivity|].
    rewrite readlines_nl_line by (apply str_Z_no_nl; exact Ha).
    constructor; [|exact Hf]. exists v, a. auto.
Qed.

Lemma json2txt_file_loads (json_load : string -> option json_doc) (float_repr : float64 -> string)
    (map_config : list (Z * Z)) (txt_path j : string) (fs : fs_t) (doc : json_doc) :
  is_Some (fs !! j) ->
  (forall content, <[combine_path txt_path (get_filename j) := EmptyString]> fs !! j = Some content ->
     utf8_valid content = true /\ json_load content = Some doc) ->
  json2txt_file json_load float_repr map_config txt_path j fs =
    let txt_file := combine_path txt_path (get_filename j) in
    let fs1 := <[txt_file := EmptyString]> fs in
    let '(out, err) := write_objects map_config float_repr (size_width doc) (size_height doc) (objects doc) in
    match err with
    | None => (Ok tt, <[txt_file := out]> fs1)
    | Some e => (Raise e, <[txt_file := out]> fs1)
    end.
Proof.
  intros [old Hold] Hload. unfold json2txt_file. rewrite Hold.
  destruct (<[combine_path txt_path (get_filename j) := EmptyString]> fs !! j) as [content|] eqn:Hc.
  - destruct (Hload content eq_refl) as [-> ->]. reflexivity.
  - exfalso. destruct (decide (combine_path txt_path (get_filename j) = j)) as [E|E].
    + rewrite E, lookup_insert_eq in Hc. discriminate.
    + rewrite lookup_insert_ne in Hc by exact E. congruence.
Qed.

(** [json2txt] on one UTF-8 json file that parses and whose objects all
    convert (non-empty exterior, [bbox2yolo] raises nothing, mapped class
    within the limit on int digits) writes one YOLO line per object, in
    order, each starting with the mapped class id. *)
Theorem json2txt_file_one_line_per_object (json_load : string -> option json_doc)
    (float_repr : float64 -> string) (map_config : list (Z * Z)) (txt_path j : string)
    (fs : fs_t) (doc : json_doc)
    (Hfr : forall f, has_char nl (float_repr f) = false)
    (Hj : is_Some (fs !! j))
    (Hload : forall content,
       <[combine_path txt_path (get_filename j) := EmptyString]> fs !! j = Some content ->
       utf8_valid content = true /\ json_load content = Some doc)
    (Hok : forallb (obj_ok map_config (size_width doc) (size_height doc)) (objects doc) = true) :
  exists txt fs', json2txt_file json_load float_repr map_config txt_path j fs = (Ok tt, fs') /\
    fs' !! combine_path txt_path (get_filename j) = Some txt /\
    Forall2 (yolo_line map_config) (readlines txt) (objects doc).
Proof.
  rewrite (json2txt_file_loads _ _ _ _ _ _ doc Hj Hload).
  destruct (write_objects_all_ok map_config float_repr (size_width doc) (size_height doc)
              (objects doc) Hfr Hok) as (out & E & Hf).
  rewrite E. exists out. eexists. split; [reflexivity|]. split; [apply lookup_insert_eq | exact Hf].
Qed.

Lemma json2txt_file_one_line_per_object_witness :
  let doc := {| size_width := 100; size_height := 50;
                 objects := [{| classId := 7; exterior := [(10, 5); (30, 25)] |};
                             {| classId := 3; exterior := [(0, 0); (100, 50)] |}] |} in
  let fs := <["ann/a.json" := "{}"]> (∅ : fs_t) in
  (forall f : float64, has_char nl ((fun _ : float64 => "0.5") f) = false) /\ is_Some (fs !! "ann/a.json") /\
  (forall content,
     <[combine_path "txt" (get_filename "ann/a.json") := EmptyString]> fs !! "ann/a.json" = Some content ->
     utf8_valid content = true /\ (fun _ : string => Some doc) content = Some doc) /\
  forallb (obj_ok [(7, 0); (3, 1)] (size_width doc) (size_height doc)) (objects doc) = true /\
  exists txt fs', json2txt_file (fun _ => Some doc) (fun _ => "0.5") [(7, 0); (3, 1)] "txt" "ann/a.json" fs = (Ok tt, fs') /\
    fs' !! combine_path "txt" (get_filename "ann/a.json") = Some txt /\
    Forall2 (yolo_line [(7, 0); (3, 1)]) (readlines txt) (objects doc).
Proof.
  intros doc fs.
  assert (Hfr : forall f : float64, has_char nl ((fun _ : float64 => "0.5") f) = false) by (intros; reflexivity).
  assert (Hj : is_Some (fs !! "ann/a.json")) by (eexists; reflexivity).
  assert (Hload : forall content,
     <[combine_path "txt" (get_filename "ann/a.json") := EmptyString]> fs !! "ann/a.json" = Some content ->
     utf8_valid content = true /\ (fun _ : string => Some doc) content = Some doc).
  { intros content Hc. vm_compute in Hc. injection Hc as <-. split; reflexivity. }
  assert (Hok : forallb (obj_ok [(7, 0); (3, 1)] (size_width doc) (size_height doc))
                  (objects doc) = true) by reflexivity.
  split; [exact Hfr | split; [exact Hj | split; [exact Hload | split; [exact Hok|]]]].
  exact (json2txt_file_one_line_per_object _ _ _ "txt" "ann/a.json" fs doc Hfr Hj Hload Hok).
Defined.

(** [json2txt] on one UTF-8 json file that parses: when the objects before
    [obj] all convert, [bbox2yolo] raises nothing on the box of [obj] and its
    class is unmapped, [KeyError] is raised at [obj], and the txt file keeps
    the lines of the objects before it (the file is not removed). *)
Theorem json2txt_file_unmapped_class (json_load : string -> option json_doc)
    (float_repr : float64 -> string) (map_config : list (Z * Z)) (txt_path j : string)
    (fs : fs_t) (doc : json_doc) (objs1 objs2 : list json_obj) (obj : json_obj)
    (Hfr : forall f, has_char nl (float_repr f) = false)
    (Hj : is_Some (fs !! j))
    (Hload : forall content,
       <[combine_path txt_path (get_filename j) := EmptyString]> fs !! j = Some content ->
       utf8_valid content = true /\ json_load content = Some doc)
    (Hobjs : objects doc = objs1 ++ obj :: objs2)
    (Hok : forallb (obj_ok map_config (size_width doc) (size_height doc)) objs1 = true)
    (Hbox : exists r, obj_box (size_width doc) (size_height doc) obj = Some (Ok r))
    (Hv : lookup_class (classId obj) map_config = None) :
  exists txt fs', json2txt_file json_load float_repr map_config txt_path j fs = (Raise KeyError, fs') /\
    fs' !! combine_path txt_path (get_filename j) = Some txt /\
    Forall2 (yolo_line map_config) (readlines txt) objs1.
Proof.
  rewrite (json2txt_file_loads _ _ _ _ _ _ doc Hj Hload), Hobjs.
  destruct (write_objects_unmapped map_config float_repr (size_width doc) (size_height doc)
              objs1 objs2 obj Hfr Hok Hbox Hv) as (out & E & Hf).
  rewrite E. exists out. eexists. split; [reflexivity|]. split; [apply lookup_insert_eq | exact Hf].
Qed.

Lemma json2txt_file_unmapped_class_witness :
  let o1 := {| classId := 7; exterior := [(10, 5); (30, 25)] |} in
  let o2 := {| classId := 4; exterior := [(0, 0); (100, 50)] |} in
  let doc := {| size_width := 100; size_height := 50; objects := [o1; o2] |} in
  let fs := <["ann/a.json" := "{}"]> (∅ : fs_t) in
  (forall f : float64, has_char nl ((fun _ : float64 => "0.5") f) = false) /\
  is_Some (fs !! "ann/a.json") /\
  (forall content,
     <[combine_path "txt" (get_filename "ann/a.json") := EmptyString]> fs !! "ann/a.json" = Some content ->
     utf8_valid content = true /\ (fun _ : string => Some doc) content = Some doc) /\
  objects doc = [o1] ++ o2 :: [] /\
  forallb (obj_ok [(7, 0); (3, 1)] (size_width doc) (size_height doc)) [o1] = true /\
  (exists r, obj_box (size_width doc) (size_height doc) o2 = Some (Ok r)) /\
  lookup_class (classId o2) [(7, 0); (3, 1)] = None /\
  exists txt fs', json2txt_file (fun _ => Some doc) (fun _ => "0.5") [(7, 0); (3, 1)] "txt" "ann/a.json" fs
                    = (Raise KeyError, fs') /\
    fs' !! combine_path "txt" (get_filename "ann/a.json") = Some txt /\
    Forall2 (yolo_line [(7, 0); (3, 1)]) (readlines txt) [o1].
Proof.
  intros o1 o2 doc fs.
  assert (Hfr : forall f : float64, has_char nl ((fun _ : float64 => "0.5") f) = false) by (intros; reflexivity).
  assert (Hj : is_Some (fs !! "ann/a.json")) by (eexists; reflexivity).
  assert (Hload : forall content,
     <[combine_path "txt" (get_filename "ann/a.json") := EmptyString]> fs !! "ann/a.json" = Some content ->
     utf8_valid content = true /\ (fun _ : string => Some doc) content = Some doc).
  { intros content Hc. vm_compute in Hc. injection Hc as <-. split; reflexivity. }
  assert (Hobjs : objects doc = [o1] ++ o2 :: []) by reflexivity.
  assert (Hok : forallb (obj_ok [(7, 0); (3, 1)] (size_width doc) (size_height doc)) [o1] = true)
    by reflexivity.
  assert (Hbox : exists r, obj_box (size_width doc) (size_height doc) o2 = Some (Ok r))
    by (eexists; vm_compute; reflexivity).
  assert (Hv : lookup_class (classId o2) [(7, 0); (3, 1)] = None) by reflexivity.
  split; [exact Hfr | split; [exact Hj | split; [exact Hload | split; [exact Hobjs |
    split; [exact Hok | split; [exact Hbox | split; [exact Hv|]]]]]]].
  exact (json2txt_file_unmapped_class _ _ _ "txt" "ann/a.json" fs doc [o1] [] o2
           Hfr Hj Hload Hobjs Hok Hbox Hv).
Defined.


Lemma dict_set_present (k k' : pykey) (v : Z) (d : list (pykey * Z)) :
  dict_get k d <> None -> dict_get k (dict_set k' v d) <> None.
Proof.
  induction d as [|[k0 v0] d IH]; simpl; [congruence|].
  destruct (pykey_eqb k' k0) eqn:E'; simpl; destruct (pykey_eqb k k0); auto; discriminate.
Qed.

Lemma dict_set_adds (k : pykey) (v : Z) (d : list (pykey * Z)) : dict_get k (dict_set k v d) <> None.
Proof. rewrite dict_get_set_eq. discriminate. Qed.

Lemma bump_present (k k' : pykey) (d : list (pykey * Z)) :
  dict_get k d <> None -> dict_get k (bump k' d) <> None.
Proof.
  intros H. unfold bump.
  assert (H1 : dict_get k (match dict_get k' d with None => dict_set k' (-1) d | Some _ => d end) <> None).
  { destruct (dict_get k' d); [exact H | now apply dict_set_present]. }
  set (cnt := match dict_get k' d with None => dict_set k' (-1) d | Some _ => d end) in *.
  destruct (dict_get k' cnt); [now apply dict_set_present | exact H1].
Qed.

Lemma bump_adds (k : pykey) (d : list (pykey * Z)) : dict_get k (bump k d) <> None.
Proof.
  unfold bump.
  assert (H1 : dict_get k (match dict_get k d with None => dict_set k (-1) d | Some _ => d end) <> None).
  { destruct (dict_get k d) eqn:E; [congruence | apply dict_set_adds]. }
  set (cnt := match dict_get k d with None => dict_set k (-1) d | Some _ => d end) in *.
  destruct (dict_get k cnt) eqn:E; [apply dict_set_adds | congruence].
Qed.

Lemma count_lines_present (k : pykey) (ls : list string) : forall d,
  dict_get k d <> None -> dict_get k (count_lines ls d) <> None.
Proof.
  induction ls as [|l ls IH]; intros d H; simpl; [exact H|].
  destruct (String.eqb (first_token l) EmptyString); [exact H|]. apply IH, bump_present, H.
Qed.

Lemma files_present (k : pykey) (files : list string) : forall d,
  dict_get k d <> None ->
  dict_get k (fold_left (fun d txt => count_lines (readlines (universal_newlines txt)) d) files d) <> None.
Proof.
  induction files as [|f fs IH]; intros d H; simpl; [exact H|]. apply IH, count_lines_present, H.
Qed.

Lemma count_lines_adds (pre ls : list string) (line : string) : forall d,
  Forall (fun l => first_token l <> EmptyString) pre -> first_token line <> EmptyString ->
  dict_get (KStr (first_token line)) (count_lines (pre ++ line :: ls) d) <> None.
Proof.
  induction pre as [|l pre IH]; intros d Hpre Ht; simpl.
  - destruct (String.eqb (first_token line) EmptyString) eqn:E; [apply String.eqb_eq in E; congruence|].
    apply count_lines_present, bump_adds.
  - inversion Hpre as [|? ? Hl Hpre']; subst.
    destruct (String.eqb (first_token l) EmptyString) eqn:E; [apply String.eqb_eq in E; congruence|].
    now apply IH.
Qed.

Lemma files_adds (files : list string) (f line : string) (pre ls : list string) : forall d,
  In f files -> readlines (universal_newlines f) = pre ++ line :: ls ->
  Forall (fun l => first_token l <> EmptyString) pre -> first_token line <> EmptyString ->
  dict_get (KStr (first_token line))
    (fold_left (fun d txt => count_lines (readlines (universal_newlines txt)) d) files d) <> None.
Proof.
  induction files as [|f' fs IH]; intros d Hin Hl Hpre Ht; [destruct Hin|]. simpl.
  destruct Hin as [<-|Hin]; [|now apply (IH _ Hin Hl Hpre Ht)].
  apply files_present. rewrite Hl. now apply count_lines_adds.
Qed.

Lemma init_keeps (k : pykey) (cls : list pykey) : forall d,
  dict_get k d <> None -> dict_get k (fold_left (fun d cl => dict_set cl 0 d) cls d) <> None.
Proof.
  induction cls as [|cl cls IH]; intros d H; simpl; [exact H|]. apply IH, dict_set_present, H.
Qed.

Lemma init_present (classes : list Z) (c : Z) : forall d,
  In c classes -> dict_get (KInt c) (fold_left (fun d cl => dict_set cl 0 d) (map KInt classes) d) <> None.
Proof.
  induction classes as [|c' cs IH]; intros d Hin; [destruct Hin|]. simpl.
  destruct Hin as [->|Hin]; [|now apply IH].
  apply init_keeps, dict_set_adds.
Qed.

Lemma dict_get_kind (k : pykey) (d : list (pykey * Z)) :
  dict_get k d <> None -> exists kv, In kv d /\ is_int_key (fst kv) = is_int_key k.
Proof.
  induction d as [|[k0 v0] d IH]; simpl; [congruence|]. intros H.
  destruct (pykey_eqb k k0) eqn:E.
  - exists (k0, v0). split; [left; reflexivity|]. simpl.
    destruct k, k0; simpl in E; try discriminate; reflexivity.
  - destruct (IH H) as (kv & Hin & Hk). exists kv. auto.
Qed.

(** [counter] with a non-empty list of int classes, on UTF-8 files, raises
    [TypeError] when one file has a line with a non-empty first field that
    the loop reaches, i.e. every line before it in that file also has a
    non-empty first field: the str key it counts cannot be sorted together
    with the int keys. (The loop stops at the first line whose first field
    is empty, so a later line of that file is not counted.) *)
Theorem counter_type_error (classes : list Z) (files : list string) (f line : string)
    (pre ls : list string) (Hcl : classes <> []) (Hf : In f files)
    (Hu : Forall (fun t => utf8_valid t = true) files)
    (Hl : readlines (universal_newlines f) = pre ++ line :: ls)
    (Hpre : Forall (fun l => first_token l <> EmptyString) pre)
    (Htok : first_token line <> EmptyString) :
  counter (map KInt classes) files = Raise TypeError.
Proof.
  unfold counter, sorted_items.
  set (d := fold_left _ files _).
  destruct classes as [|c cs]; [congruence|].
  assert (Hi : dict_get (KInt c) d <> None).
  { apply files_present, init_present. left; reflexivity. }
  assert (Hs : dict_get (KStr (first_token line)) d <> None) by (eapply files_adds; eauto).
  destruct (dict_get_kind _ _ Hi) as (kv1 & Hin1 & Hk1).
  destruct (dict_get_kind _ _ Hs) as (kv2 & Hin2 & Hk2).
  destruct (forallb (fun kv => is_int_key (fst kv)) d) eqn:E1.
  { rewrite forallb_forall in E1. specialize (E1 _ Hin2). simpl in Hk2. congruence. }
  destruct (forallb (fun kv => negb (is_int_key (fst kv))) d) eqn:E2.
  { rewrite forallb_forall in E2. specialize (E2 _ Hin1). simpl in Hk1. rewrite Hk1 in E2. discriminate. }
  reflexivity.
Qed.

Lemma counter_type_error_witness :
  let f := text_of_lines ["1 a"; "0 b"] in
  [0] <> [] /\ In f [f] /\ Forall (fun t => utf8_valid t = true) [f] /\
  readlines (universal_newlines f) = [nl_line "1 a"] ++ nl_line "0 b" :: [] /\
  Forall (fun l => first_token l <> EmptyString) [nl_line "1 a"] /\
  first_token (nl_line "0 b") <> EmptyString /\
  counter (map KInt [0]) [f] = Raise TypeError.
Proof.
  intros f.
  assert (Hcl : [0] <> []) by discriminate.
  assert (Hf : In f [f]) by (left; reflexivity).
  assert (Hu : Forall (fun t => utf8_valid t = true) [f]) by (constructor; [reflexivity | constructor]).
  assert (Hl : readlines (universal_newlines f) = [nl_line "1 a"] ++ nl_line "0 b" :: []) by reflexivity.
  assert (Hpre : Forall (fun l => first_token l <> EmptyString) [nl_line "1 a"])
    by (constructor; [vm_compute; discriminate | constructor]).
  assert (Htok : first_token (nl_line "0 b") <> EmptyString) by (vm_compute; discriminate).
  split; [exact Hcl | split; [exact Hf | split; [exact Hu | split; [exact Hl |
    split; [exact Hpre | split; [exact Htok|]]]]]].
  exact (counter_type_error [0] [f] f _ _ [] Hcl Hf Hu Hl Hpre Htok).
Defined.


Lemma remove_lines_nothing_removed (keep : list (Z * Z)) (ls : list string) :
  remove_lines keep [] ls = replace_lines keep ls.
Proof.
  induction ls as [|l ls IH]; [reflexivity|]. simpl.
  destruct (record_of l) as [[c wo]|e]; [|reflexivity]. simpl.
  destruct (lookup_class c keep) as [v|]; [|reflexivity].
  destruct (py_str_int v); [|reflexivity]. now rewrite IH.
Qed.

Lemma replace_files_single_ok (m : list (Z * Z)) (p : string) (fs fs1 : fs_t) :
  replace_files m [p] fs = (Ok tt, fs1) ->
  exists old w1, fs !! p = Some old /\
    replace_lines m (readlines (universal_newlines old)) = (w1, None) /\
    fs1 = <[p := w1]> fs /\ has_char cr w1 = false /\ utf8_valid w1 = true.
Proof.
  simpl. destruct (fs !! p) as [old|] eqn:Hp; [|discriminate].
  destruct (utf8_valid old) eqn:Hv; cbn [negb]; [|discriminate].
  destruct (replace_lines m (readlines (universal_newlines old))) as [w1 e1] eqn:E1.
  destruct e1; [discriminate|]. intros H. injection H as <-.
  exists old, w1. split; [reflexivity|]. split; [exact E1|]. split; [reflexivity|].
  change w1 with (fst (w1, @None pyerr)). rewrite <- E1. split.
  - apply replace_lines_no_char; try reflexivity.
    apply readlines_no_char, universal_newlines_no_cr.
  - apply replace_lines_valid, utf8_valid_readlines, utf8_valid_universal_newlines, Hv.
Qed.

(** [replace_classes] returns the keys of its map as the new config; when a
    value of the map is not one of its keys, a following [remove_class] with
    that config raises [KeyError] on the replaced file. *)
Theorem replace_then_remove_key_error (m : list (Z * Z)) (p old line : string)
    (rest : list string) (fs : fs_t) (c v : Z) (wo : string)
    (Hnd : NoDup (map fst m)) (Hp : fs !! p = Some old)
    (Hl : readlines (universal_newlines old) = line :: rest)
    (Hr : record_of line = Ok (c, wo)) (Hv : lookup_class c m = Some v)
    (Hnew : ~ In v (map fst m)) :
  let '(cfg', (r, fs1)) := replace_classes m [p] fs in
  r = Ok tt -> fst (remove_class cfg' [] [p] fs1) = Raise KeyError.
Proof.
  unfold replace_classes. destruct (replace_files m [p] fs) as [r fs1] eqn:E. intros ->.
  destruct (replace_files_single_ok m p fs fs1 E) as (old' & w1 & Hp' & E1 & -> & Hcr & Hw1).
  rewrite Hp in Hp'. injection Hp' as <-.
  unfold remove_class. destruct (update_classes (map fst m) []) as [keep|e] eqn:Hu.
  2:{ exfalso. destruct m as [|kv m']; [discriminate|]. discriminate. }
  assert (Hk : lookup_class v keep = None).
  { apply lookup_class_None. intros Hin.
    apply (proj1 (proj2 (update_classes_key_set _ _ _ Hu) v)) in Hin as [Hin _]. contradiction. }
  simpl. rewrite lookup_insert_eq, Hw1. cbn [negb]. rewrite universal_newlines_id by exact Hcr.
  rewrite remove_lines_nothing_removed.
  rewrite (replace_lines_compose m keep _ w1 Hnd (lines_ok_readlines _) E1), Hl.
  simpl. rewrite Hr. rewrite lookup_compose_map by exact Hnd. rewrite Hv, Hk. reflexivity.
Qed.

Lemma replace_then_remove_key_error_witness :
  let old := text_of_lines ["0 x"] in
  let fs := <["a.txt" := old]> (∅ : fs_t) in
  NoDup (map fst [(0, 5)]) /\ fs !! "a.txt" = Some old /\
  readlines (universal_newlines old) = [old] /\
  record_of old = Ok (0, text_of_lines ["x"]) /\
  lookup_class 0 [(0, 5)] = Some 5 /\ ~ In 5 (map fst [(0, 5)]) /\
  let '(cfg', (r, fs1)) := replace_classes [(0, 5)] ["a.txt"] fs in
  r = Ok tt -> fst (remove_class cfg' [] ["a.txt"] fs1) = Raise KeyError.
Proof.
  intros old fs.
  assert (Hnd : NoDup (map fst [(0, 5)])) by (apply (bool_decide_unpack _); reflexivity).
  assert (Hp : fs !! "a.txt" = Some old) by reflexivity.
  assert (Hl : readlines (universal_newlines old) = [old]) by reflexivity.
  assert (Hr : record_of old = Ok (0, text_of_lines ["x"])) by reflexivity.
  assert (Hv : lookup_class 0 [(0, 5)] = Some 5) by reflexivity.
  assert (Hnew : ~ In 5 (map fst [(0, 5)])) by (simpl; lia).
  split; [exact Hnd | split; [exact Hp | split; [exact Hl | split; [exact Hr |
    split; [exact Hv | split; [exact Hnew|]]]]]].
  exact (replace_then_remove_key_error _ "a.txt" old old [] fs 0 5 _ Hnd Hp Hl Hr Hv Hnew).
Defined.


(** [get_filename] gives back a name without a dot or a slash that was joined
    to a folder with [combine_path]. *)
Theorem get_filename_combine_path (folder name : string)
    (Hs : has_char slash name = false) (Hd : has_char dot name = false) :
  get_filename (combine_path folder name) = name.
Proof.
  unfold get_filename, combine_path.
  rewrite basename_after_slash by (rewrite has_char_app, Hs; reflexivity).
  now apply before_dot_app_dot.
Qed.

Lemma get_filename_combine_path_witness :
  has_char slash "img_01" = false /\ has_char dot "img_01" = false /\
  get_filename (combine_path "data/txt" "img_01") = "img_01".
Proof.
  assert (Hs : has_char slash "img_01" = false) by reflexivity.
  assert (Hd : has_char dot "img_01" = false) by reflexivity.
  split; [exact Hs | split; [exact Hd|]].
  exact (get_filename_combine_path "data/txt" "img_01" Hs Hd).
Defined.

Lemma pykey_eqb_eq (a b : pykey) : pykey_eqb a b = true <-> a = b.
Proof.
  destruct a as [x|x], b as [y|y]; simpl; split; intros H; try discriminate.
  - apply Z.eqb_eq in H. now subst.
  - injection H as ->. apply Z.eqb_refl.
  - apply String.eqb_eq in H. now subst.
  - injection H as ->. apply String.eqb_refl.
Qed.

Lemma dict_set_in (k : pykey) (v : Z) (d : list (pykey * Z)) (kv : pykey * Z) :
  In kv (dict_set k v d) -> In kv d \/ kv = (k, v).
Proof.
  induction d as [|[k0 v0] d IH]; simpl; [intros [<-|[]]; right; reflexivity|].
  destruct (pykey_eqb k k0) eqn:E.
  - apply pykey_eqb_eq in E. subst. intros [<-|H]; [right; reflexivity | left; right; exact H].
  - intros [<-|H]; [left; left; reflexivity|]. destruct (IH H); [left; right|right]; assumption.
Qed.

Lemma dict_set_keys (k : pykey) (v : Z) (d : list (pykey * Z)) :
  map fst (dict_set k v d) = if dict_get k d then map fst d else map fst d ++ [k].
Proof.
  induction d as [|[k0 v0] d IH]; simpl; [reflexivity|].
  destruct (pykey_eqb k k0) eqn:E; simpl; [reflexivity|]. rewrite IH.
  destruct (dict_get k d); reflexivity.
Qed.

Lemma dict_get_None_keys (k : pykey) (d : list (pykey * Z)) :
  dict_get k d = None -> ~ In k (map fst d).
Proof.
  induction d as [|[k0 v0] d IH]; simpl; [tauto|].
  destruct (pykey_eqb k k0) eqn:E; [discriminate|]. intros H [<-|Hin].
  - rewrite pykey_eqb_refl in E. discriminate.
  - exact (IH H Hin).
Qed.

Lemma dict_get_Some_in (k : pykey) (d : list (pykey * Z)) :
  dict_get k d <> None -> exists v, In (k, v) d.
Proof.
  induction d as [|[k0 v0] d IH]; simpl; [congruence|].
  destruct (pykey_eqb k k0) eqn:E.
  - apply pykey_eqb_eq in E. subst. intros _. exists v0. left; reflexivity.
  - intros H. destruct (IH H) as [v Hv]. exists v. right. exact Hv.
Qed.

Section Init.
Variable classes : list Z.

Lemma init_inv_fold (cls : list Z) : forall d,
  (forall c, In c cls -> In c classes) -> init_inv classes d ->
  init_inv classes (fold_left (fun d cl => dict_set cl 0 d) (map KInt cls) d).
Proof.
  induction cls as [|c cls IH]; intros d Hc [Hnd Hd]; simpl; [split; assumption|].
  apply IH; [intros c' H; apply Hc; right; exact H|]. split.
  - rewrite dict_set_keys. destruct (dict_get (KInt c) d) eqn:E; [exact Hnd|].
    apply NoDup_app. split; [exact Hnd|]. split; [|apply NoDup_singleton].
    intros x Hx Hx'. apply list_elem_of_singleton in Hx'. subst x.
    apply list_elem_of_In in Hx. exact (dict_get_None_keys _ _ E Hx).
  - intros kv Hin. destruct (dict_set_in _ _ _ _ Hin) as [H| ->]; [now apply Hd|].
    split; [reflexivity|]. exists c. split; [reflexivity|]. apply Hc. left; reflexivity.
Qed.
End Init.


Lemma insert_sorted_in (x y : pykey * Z) (l : list (pykey * Z)) :
  In x (insert_sorted y l) <-> x = y \/ In x l.
Proof.
  induction l as [|z l IH]; simpl; [intuition congruence|].
  destruct (key_ltb (fst z) (fst y)); simpl; [rewrite IH|]; intuition congruence.
Qed.

Lemma insert_sorted_sorted (y : pykey * Z) (l : list (pykey * Z)) :
  (exists c, fst y = KInt c) -> Forall (fun kv => exists c, fst kv = KInt c) l ->
  ~ In (fst y) (map fst l) ->
  StronglySorted (fun a b => key_ltb (fst a) (fst b) = true) l ->
  StronglySorted (fun a b => key_ltb (fst a) (fst b) = true) (insert_sorted y l).
Proof.
  intros [cy Hy]. induction l as [|z l IH]; intros Hint Hnin Hs; simpl.
  { repeat constructor. }
  inversion Hint as [|? ? [cz Hz] Hint']; subst.
  inversion Hs as [|? ? Hs' Hall]; subst.
  assert (Hne : cz <> cy).
  { intros ->. apply Hnin. left. congruence. }
  destruct (key_ltb (fst z) (fst y)) eqn:E.
  - constructor.
    + apply IH; [exact Hint' | intros H; apply Hnin; right; exact H | exact Hs'].
    + apply List.Forall_forall. intros x Hx. apply insert_sorted_in in Hx as [-> | Hx].
      * exact E.
      * rewrite List.Forall_forall in Hall. now apply Hall.
  - rewrite Hy, Hz in E. simpl in E. apply Z.ltb_ge in E.
    constructor; [exact Hs|]. constructor.
    + rewrite Hy, Hz. simpl. apply Z.ltb_lt. lia.
    + apply List.Forall_forall. intros x Hx.
      rewrite List.Forall_forall in Hall. specialize (Hall x Hx).
      rewrite List.Forall_forall in Hint'. destruct (Hint' x Hx) as [cx Hx'].
      rewrite Hz, Hx' in Hall. rewrite Hy, Hx'. simpl in *.
      apply Z.ltb_lt in Hall. apply Z.ltb_lt. lia.
Qed.

Lemma insertion_sort_sorted (d : list (pykey * Z)) :
  NoDup (map fst d) -> Forall (fun kv => exists c, fst kv = KInt c) d ->
  StronglySorted (fun a b => key_ltb (fst a) (fst b) = true) (fold_right insert_sorted [] d) /\
  forall x, In x (fold_right insert_sorted [] d) <-> In x d.
Proof.
  induction d as [|y d IH]; intros Hnd Hint; simpl.
  { split; [constructor | tauto]. }
  apply NoDup_cons in Hnd as [Hy Hnd]. inversion Hint as [|? ? Hyi Hint']; subst.
  destruct (IH Hnd Hint') as [Hs Hin]. split.
  - apply insert_sorted_sorted; [exact Hyi | | | exact Hs].
    + apply List.Forall_forall. intros x Hx. apply Hin in Hx.
      rewrite List.Forall_forall in Hint'. now apply Hint'.
    + intros H. apply Hy. apply list_elem_of_In. apply in_map_iff in H as (x & Hx & Hx').
      apply Hin in Hx'. apply in_map_iff. exists x. auto.
  - intros x. rewrite insert_sorted_in, Hin. intuition congruence.
Qed.

(** [counter] with int classes and no files returns every distinct class
    once, with count 0, in strictly increasing order. *)
Theorem counter_no_files (classes : list Z) :
  exists l, counter (map KInt classes) [] = Ok l /\
    (forall k v, In (k, v) l <-> (exists c, k = KInt c /\ In c classes) /\ v = 0) /\
    StronglySorted (fun a b => key_ltb (fst a) (fst b) = true) l.
Proof.
  unfold counter. cbn [fold_left].
  set (d := fold_left (fun d cl => dict_set cl 0 d) (map KInt classes) []).
  assert (Hinv : init_inv classes d).
  { apply init_inv_fold; [tauto|]. split; [constructor | intros kv []]. }
  destruct Hinv as [Hnd Hd].
  assert (Hint : Forall (fun kv => exists c, fst kv = KInt c) d).
  { apply List.Forall_forall. intros kv Hkv. destruct (Hd kv Hkv) as (_ & c & Hc & _). eauto. }
  unfold sorted_items.
  replace (forallb (fun kv => is_int_key (fst kv)) d) with true.
  2:{ symmetry. apply forallb_forall. intros kv Hkv. destruct (Hd kv Hkv) as (_ & c & -> & _). reflexivity. }
  destruct (insertion_sort_sorted d Hnd Hint) as [Hs Hin].
  eexists. split; [reflexivity|]. split; [|exact Hs].
  intros k v. rewrite Hin. split.
  - intros H. destruct (Hd _ H) as (Hv & c & Hc & Hcl). simpl in *. split; [eauto | exact Hv].
  - intros [(c & -> & Hc) ->].
    pose proof (init_present classes c [] Hc) as Hp. fold d in Hp.
    destruct (dict_get_Some_in _ _ Hp) as [v Hv]. destruct (Hd _ Hv) as [Hv0 _].
    simpl in Hv0. subst v. exact Hv.
Qed.
